(** * Minesweeper (App.tsx): board generation, reveal and win check

    A shallow embedding of the game logic of [src/App.tsx] and the
    properties its specification states about it.

    Modelling conventions.
    - A JavaScript [number] used as a coordinate, counter or number of
      seconds is an integer of [Z]; the model covers integer values in
      the range where JavaScript arithmetic is exact, up to
      [MAX_SAFE_INTEGER] in absolute value.  The statements about
      [formatTime], which divides, carry that bound.
    - [Cell[][]] is [list (list Cell)].  Reading an array outside its
      range gives [undefined] (here [None]); reading a property of
      [undefined] raises a [TypeError], which the result type [res]
      records as [Throws].
    - [openCellRecursive] is recursive without an evident structural
      argument: it takes a fuel argument and returns [OutOfFuel] when
      the recursion is cut.  Termination is a theorem, not an assumption.
    - [Math.floor(Math.random() * BOARD_SIZE)] is read off a list of
      samples; the mine-placing loop returns [OutOfFuel] when the list is
      exhausted before the loop ends.
    - React state is a record; an event handler maps the state before to
      the state after. *)

From stdpp Require Import base tactics option list list_numbers strings pretty.
From Stdlib Require Import ZArith Lia.

#[local] Set Warnings "-clear-no-such-hyp".

Local Open Scope Z_scope.

(** ** Results of JavaScript computations *)

Inductive res (A : Type) : Type :=
| Returns (a : A)
| Throws
| OutOfFuel.
Arguments Returns {A} a.
Arguments Throws {A}.
Arguments OutOfFuel {A}.

Definition bind {A B : Type} (m : res A) (f : A → res B) : res B :=
  match m with
  | Returns a => f a
  | Throws => Throws
  | OutOfFuel => OutOfFuel
  end.

Notation "x <- m ;; k" := (bind m (λ x, k))
  (at level 100, m at next level, right associativity).

(** [mapM f xs]: [xs.map(f)] for a callback that may throw. *)
Fixpoint mapM {A B : Type} (f : A → res B) (xs : list A) : res (list B) :=
  match xs with
  | [] => Returns []
  | x :: xs => y <- f x;; ys <- mapM f xs;; Returns (y :: ys)
  end.

(** [forEachM f xs acc] runs [f x] for each [x] of [xs] in order, threading
    the accumulator, and stops at the first exception. *)
Fixpoint forEachM {A S : Type} (f : A → S → res S) (xs : list A) (acc : S) : res S :=
  match xs with
  | [] => Returns acc
  | x :: xs => acc' <- f x acc;; forEachM f xs acc'
  end.

(** ** Cells and boards (lines 4-12) *)

Record Cell : Type := mkCell {
  isMine : bool;
  isOpen : bool;
  isFlagged : bool;
  adjacentMines : Z;
}.

Abbreviation Board := (list (list Cell)).

Definition BOARD_SIZE : Z := 10.
Definition MINES_COUNT : Z := 10.

Global Instance Cell_eq_dec : EqDecision Cell.
Proof. solve_decision. Defined.

(** [a[i]] for a JavaScript array and an integer index: [undefined]
    outside the array. *)
Definition at_index {A : Type} (l : list A) (i : Z) : option A :=
  if bool_decide (0 ≤ i) then l !! Z.to_nat i else None.

(** [board[row][col]] as an expression: throws when [board[row]] is
    [undefined], evaluates to [undefined] when the row has no such column. *)
Definition readCell (board : Board) (row col : Z) : res (option Cell) :=
  match at_index board row with
  | Some r => Returns (at_index r col)
  | None => Throws
  end.

(** [v.field] where [v] may be [undefined]. *)
Definition prop {B : Type} (f : Cell → B) (v : option Cell) : res B :=
  match v with
  | Some c => Returns (f c)
  | None => Throws
  end.

(** [board[row][col].field]. *)
Definition cellProp {B : Type} (f : Cell → B) (board : Board) (row col : Z) : res B :=
  v <- readCell board row col;; prop f v.

(** [board[row][col].field = x]: the cell object is updated in place;
    assigning to a property of [undefined] throws. *)
Definition assignCell (f : Cell → Cell) (board : Board) (row col : Z) : res Board :=
  v <- readCell board row col;;
  match v with
  | Some _ => Returns (alter (alter f (Z.to_nat col)) (Z.to_nat row) board)
  | None => Throws
  end.

Definition setMine (c : Cell) : Cell :=
  {| isMine := true; isOpen := isOpen c; isFlagged := isFlagged c;
     adjacentMines := adjacentMines c |}.
Definition setOpen (c : Cell) : Cell :=
  {| isMine := isMine c; isOpen := true; isFlagged := isFlagged c;
     adjacentMines := adjacentMines c |}.
Definition setAdjacentMines (n : Z) (c : Cell) : Cell :=
  {| isMine := isMine c; isOpen := isOpen c; isFlagged := isFlagged c;
     adjacentMines := n |}.

(** ** getAdjacentCells (lines 52-69) *)

Definition directions : list (Z * Z) :=
  [ (-1, -1); (-1, 0); (-1, 1);
    (0, -1);           (0, 1);
    (1, -1);  (1, 0);  (1, 1) ].

Definition inBounds (row col : Z) : bool :=
  bool_decide (0 ≤ row) && bool_decide (row < BOARD_SIZE) &&
  bool_decide (0 ≤ col) && bool_decide (col < BOARD_SIZE).

(** The callback of [directions.map]: [Some v] is the value [v] of
    [board[newRow][newCol]] (a cell, or [undefined]), [None] is [null]. *)
Definition adjacentAt (board : Board) (row col : Z) (d : Z * Z) : res (option (option Cell)) :=
  let newRow := row + d.1 in
  let newCol := col + d.2 in
  if inBounds newRow newCol
  then v <- readCell board newRow newCol;; Returns (Some v)
  else Returns None.

(** The array returned holds the values that are not [null]; an entry is
    [None] when it is [undefined].  The entries are the cell objects of the
    board; the callers read them before the board changes or test them for
    truthiness only, so the model keeps their values. *)
Definition getAdjacentCells (board : Board) (row col : Z) : res (list (option Cell)) :=
  cells <- mapM (adjacentAt board row col) directions;;
  Returns (omap id cells).

(** ** createBoard (lines 15-49) *)

Definition blankCell : Cell :=
  {| isMine := false; isOpen := false; isFlagged := false; adjacentMines := 0 |}.

Definition blankBoard : Board :=
  replicate (Z.to_nat BOARD_SIZE) (replicate (Z.to_nat BOARD_SIZE) blankCell).

(** The [while] loop of lines 28-36.  [rand] lists the successive values of
    [Math.floor(Math.random() * BOARD_SIZE)]; an iteration reads two. *)
Fixpoint placeMines (rand : list Z) (minesPlaced : Z) (board : Board) : res Board :=
  if bool_decide (minesPlaced < MINES_COUNT) then
    match rand with
    | row :: col :: rand' =>
        m <- cellProp isMine board row col;;
        if negb m then
          board' <- assignCell setMine board row col;;
          placeMines rand' (minesPlaced + 1) board'
        else placeMines rand' minesPlaced board
    | _ => OutOfFuel
    end
  else Returns board.

(** [adjacentCells.filter(cell => cell.isMine).length]. *)
Definition countMines (adjacentCells : list (option Cell)) : res Z :=
  flags <- mapM (prop isMine) adjacentCells;;
  Returns (Z.of_nat (length (filter (λ b : bool, b = true) flags))).

(** The body of the inner loop of lines 39-46. *)
Definition countAdjacent (row col : Z) (board : Board) : res Board :=
  m <- cellProp isMine board row col;;
  if negb m then
    adjacentCells <- getAdjacentCells board row col;;
    n <- countMines adjacentCells;;
    assignCell (setAdjacentMines n) board row col
  else Returns board.

Definition countAll (board : Board) : res Board :=
  forEachM (λ row, forEachM (λ col, countAdjacent row col) (seqZ 0 BOARD_SIZE))
           (seqZ 0 BOARD_SIZE) board.

Definition createBoard (rand : list Z) : res Board :=
  board <- placeMines rand 0 blankBoard;;
  countAll board.

(** ** formatTime (lines 72-76) *)

(** [Number.MAX_SAFE_INTEGER].  The integers up to it in absolute value are
    JavaScript numbers, and for them [Math.floor(seconds / 60)], computed in
    double precision, is the quotient rounded down: the quotient is below
    2^48, where rounding moves it by 1/64 at most, and when 60 does not
    divide [seconds] it lies 1/60 or more from every integer. *)
Definition MAX_SAFE_INTEGER : Z := 2 ^ 53 - 1.

(** [String(n)] for an integer [n] up to [MAX_SAFE_INTEGER] in absolute
    value. *)
Definition numberToString (n : Z) : string := pretty n.

(** [formatTime] on a whole number of seconds up to [MAX_SAFE_INTEGER] in
    absolute value: [Math.floor(seconds / 60)] is the quotient rounded down,
    [seconds % 60] the remainder with the sign of [seconds].  Beyond that
    range the code rounds the quotient and this definition does not follow
    it. *)

Definition formatTime (seconds : Z) : string :=
  let mins := seconds `div` 60 in
  let secs := Z.rem seconds 60 in
  numberToString mins +:+ ":" +:+ (if bool_decide (secs < 10) then "0" else "") +:+
  numberToString secs.

(** ** The component state (lines 80-85) *)

Record State : Type := mkState {
  board : Board;
  isGameOver : bool;
  isGameWon : bool;
  showAllMines : bool;
  timer : Z;
  isTimerActive : bool;
}.

(** ** The timer (lines 88-98) *)

(** One firing of the interval, which exists while [isTimerActive]. *)
Definition tick (st : State) : State :=
  if isTimerActive st then
    {| board := board st; isGameOver := isGameOver st; isGameWon := isGameWon st;
       showAllMines := showAllMines st; timer := timer st + 1;
       isTimerActive := isTimerActive st |}
  else st.

(** ** openCellRecursive (lines 120-134) *)

(** [v ? 1 : 0] for an array entry [v]: a cell object is truthy,
    [undefined] (an entry that is [undefined], or no entry) is falsy. *)
Definition truthy (v : option (option Cell)) : bool :=
  match v with
  | Some (Some _) => true
  | _ => false
  end.

Fixpoint openCellRecursive (fuel : nat) (board : Board) (row col : Z) : res Board :=
  match fuel with
  | O => OutOfFuel
  | S fuel =>
      if bool_decide (row < 0) || bool_decide (row >= BOARD_SIZE) ||
         bool_decide (col < 0) || bool_decide (col >= BOARD_SIZE)
      then Returns board
      else
        o <- cellProp isOpen board row col;;
        m <- (if o then Returns true else cellProp isMine board row col);;
        if m then Returns board
        else
          board <- assignCell setOpen board row col;;
          a <- cellProp adjacentMines board row col;;
          if bool_decide (a = 0) then
            neighbors <- getAdjacentCells board row col;;
            forEachM (λ index board,
                        let nr := row + (if truthy (neighbors !! index) then 1 else 0) in
                        let nc := col + (if truthy (neighbors !! index) then 1 else 0) in
                        openCellRecursive fuel board nr nc)
                     (seq 0 (length neighbors)) board
          else Returns board
  end.

(** ** checkWin (lines 137-146) *)

Definition checkWin (board : Board) : bool :=
  forallb (λ row, forallb (λ cell, negb (negb (isMine cell) && negb (isOpen cell))) row) board.

(** ** openCell (lines 101-117) *)

Definition openCell (fuel : nat) (st : State) (row col : Z) : res State :=
  if isGameOver st || isGameWon st then Returns st
  else
    o <- cellProp isOpen (board st) row col;;
    f <- (if o then Returns true else cellProp isFlagged (board st) row col);;
    if f then Returns st
    else
      (* [board.map(row => row.map(cell => ({ ...cell })))]: a copy *)
      let newBoard := board st in
      newBoard <- openCellRecursive fuel newBoard row col;;
      m <- cellProp isMine newBoard row col;;
      if m then
        Returns {| board := newBoard; isGameOver := true; isGameWon := isGameWon st;
                   showAllMines := true; timer := timer st; isTimerActive := false |}
      else if checkWin newBoard then
        Returns {| board := newBoard; isGameOver := isGameOver st; isGameWon := true;
                   showAllMines := showAllMines st; timer := timer st;
                   isTimerActive := false |}
      else
        Returns {| board := newBoard; isGameOver := isGameOver st;
                   isGameWon := isGameWon st; showAllMines := showAllMines st;
                   timer := timer st; isTimerActive := isTimerActive st |}.

(** ** restartGame (lines 149-156) and the initial state (lines 80-85) *)

Definition newGame (b : Board) : State :=
  {| board := b; isGameOver := false; isGameWon := false; showAllMines := false;
     timer := 0; isTimerActive := true |}.

(** ** The outcome of the game, as the component shows it (lines 186-192) *)

Inductive Outcome : Type := InProgress | Win | Loss.

Definition outcome (st : State) : Outcome :=
  if isGameWon st then Win else if isGameOver st then Loss else InProgress.

(** * The notions used in the statements *)

(** ** Views of a board *)

(** The cell at a coordinate, if the board has one there. *)
Definition getCell (board : Board) (row col : Z) : option Cell :=
  match at_index board row with
  | Some r => at_index r col
  | None => None
  end.

(** The number of cells of a board that satisfy a test. *)
Definition countCells (P : Cell → bool) (b : Board) : nat :=
  length (filter (λ c, P c = true) (concat b)).

(** A cell that is not open; a cell without a mine that is not open; a mine
    that is open. *)
Definition isClosed (c : Cell) : bool := negb (isOpen c).
Definition safeClosed (c : Cell) : bool := negb (isMine c) && negb (isOpen c).
Definition openMine (c : Cell) : bool := isMine c && isOpen c.

(** A board differs from another one only at coordinates that satisfy [Q]. *)
Definition changesOnly (Q : Z * Z → Prop) (b b' : Board) : Prop :=
  ∀ row col, getCell b' row col ≠ getCell b row col → Q (row, col).

(** The coordinates down the diagonal that starts at a cell. *)
Definition downDiagonal (row col : Z) (p : Z * Z) : Prop :=
  row ≤ p.1 ∧ p.1 - row = p.2 - col.

(** ** Generation *)

(** Cells that differ in [adjacentMines] at most. *)
Definition sameLayout (c c' : Cell) : Prop :=
  isMine c' = isMine c ∧ isOpen c' = isOpen c ∧ isFlagged c' = isFlagged c.

(** Cells with the same [isOpen] and [isFlagged]. *)
Definition sameMarks (c c' : Cell) : Prop :=
  isOpen c' = isOpen c ∧ isFlagged c' = isFlagged c.

(** Whether the board holds a mine at a coordinate. *)
Definition mineAt (b : Board) (p : Z * Z) : bool :=
  match getCell b p.1 p.2 with
  | Some c => isMine c
  | None => false
  end.

(** The Chebyshev distance between two coordinates. *)
Definition chebyshev (p q : Z * Z) : Z :=
  Z.max (Z.abs (q.1 - p.1)) (Z.abs (q.2 - p.2)).

(** The 8 coordinates that surround a cell, clipped to the grid. *)
Definition neighbours (row col : Z) : list (Z * Z) :=
  filter (λ p, inBounds p.1 p.2 = true)
    [ (row - 1, col - 1); (row - 1, col); (row - 1, col + 1);
      (row, col - 1);                     (row, col + 1);
      (row + 1, col - 1); (row + 1, col); (row + 1, col + 1) ].

(** The number of mines among the neighbours of a cell. *)
Definition neighbourMines (b : Board) (row col : Z) : Z :=
  Z.of_nat (length (filter (λ p, mineAt b p = true) (neighbours row col))).

(** A cell that holds no mine carries the number of mines around it. *)
Definition adjacentOK (b : Board) (p : Z * Z) : Prop :=
  ∀ cell, getCell b p.1 p.2 = Some cell → isMine cell = false →
          adjacentMines cell = neighbourMines b p.1 p.2.

(** The coordinates of the grid, in the order of the loops of lines 39-40. *)
Definition gridCoords : list (Z * Z) :=
  row ← seqZ 0 BOARD_SIZE; pair row <$> seqZ 0 BOARD_SIZE.

(** A board of [BOARD_SIZE] rows of [BOARD_SIZE] cells. *)
Definition square (b : Board) : Prop :=
  length b = Z.to_nat BOARD_SIZE ∧ Forall (λ r, length r = Z.to_nat BOARD_SIZE) b.

(** ** Reveal *)

(** What a reveal may do to a cell: nothing, or open a closed cell that
    holds no mine. *)
Definition opened (c c' : Cell) : Prop :=
  c' = c ∨ (isMine c = false ∧ isOpen c = false ∧ c' = setOpen c).

(** The relation between the boards before and after a reveal. *)
Definition revealed (b b' : Board) : Prop := Forall2 (Forall2 opened) b b'.

(** The fields of a cell a reveal must keep, and the one way [isOpen] may
    change. *)
Definition frame (c c' : Cell) : Prop :=
  isMine c' = isMine c ∧ isFlagged c' = isFlagged c ∧
  adjacentMines c' = adjacentMines c ∧
  (isOpen c' = isOpen c ∨ (isOpen c = false ∧ isOpen c' = true)).

(** A computation that ended, by returning or by throwing. *)
Definition terminated {A : Type} (r : res A) : Prop :=
  match r with
  | OutOfFuel => False
  | _ => True
  end.

(** Two runs of a reveal agree: both throw, or both return the same board
    and the same outcome. *)
Definition sameResult (r1 r2 : res State) : Prop :=
  match r1, r2 with
  | Returns st1, Returns st2 => board st1 = board st2 ∧ outcome st1 = outcome st2
  | Throws, Throws => True
  | _, _ => False
  end.

(** ** The states of a game *)

(** The states the component can be in: it starts, and restarts, from a
    board of [createBoard]; a press on a cell runs [openCell]; the timer
    ticks. *)
Inductive reachable : State → Prop :=
| reach_new (rand : list Z) (b : Board) :
    createBoard rand = Returns b → reachable (newGame b)
| reach_open (st st' : State) (fuel : nat) (row col : Z) :
    reachable st → openCell fuel st row col = Returns st' → reachable st'
| reach_tick (st : State) :
    reachable st → reachable (tick st).

(** A sequence of presses. *)
Definition play (fuel : nat) (clicks : list (Z * Z)) (st : State) : res State :=
  forEachM (λ p st, openCell fuel st p.1 p.2) clicks st.

(** ** The format "M:SS" *)

(** The character of a decimal digit. *)
Definition digitChar (d : Z) : Ascii.ascii := Ascii.ascii_of_N (48 + Z.to_N d).

(** A number below 100 written with two digits, the first one 0 when the
    number is below 10. *)
Definition twoDigits (n : Z) : string :=
  String (digitChar (n `div` 10)) (String (digitChar (n `mod` 10)) "").

(** The decimal notation of a natural number, without padding: the digit of
    a number below 10, and above the notation of its tenth followed by its
    last digit.  The number of digits is the fuel. *)
Fixpoint decimalDigits (fuel : nat) (n : Z) : string :=
  match fuel with
  | O => ""
  | S fuel =>
      if bool_decide (n < 10) then String (digitChar n) ""
      else decimalDigits fuel (n `div` 10) +:+ String (digitChar (n `mod` 10)) ""
  end.

Definition decimal (n : Z) : string := decimalDigits (S (Z.to_nat n)) n.

(** The minutes without padding, a colon, the seconds with two digits. *)
Definition minutesSeconds (seconds : Z) : string :=
  decimal (seconds `div` 60) +:+ ":" +:+ twoDigits (seconds `mod` 60).

(** ** A game used in the examples *)

(** Samples that put the ten mines on the last row. *)
Definition lastRowSamples : list Z :=
  [9; 0; 9; 1; 9; 2; 9; 3; 9; 4; 9; 5; 9; 6; 9; 7; 9; 8; 9; 9].

(** The board [createBoard] builds from them: eight rows of cells without a
    mine around, a row next to the mines, and the mines. *)
Definition lastRowBoard : Board :=
  replicate 8 (replicate 10 (mkCell false false false 0)) ++
  [ [mkCell false false false 2] ++
    replicate 8 (mkCell false false false 3) ++
    [mkCell false false false 2];
    replicate 10 (mkCell true false false 0) ].

(** The state after a first press, on the top left corner. *)
Definition afterCorner : State :=
  match openCell 11 (newGame lastRowBoard) 0 0 with
  | Returns st => st
  | _ => newGame lastRowBoard
  end.

(** The state after a first press, on the mine at the bottom left corner. *)
Definition afterMine : State :=
  {| board := lastRowBoard; isGameOver := true; isGameWon := false;
     showAllMines := true; timer := 0; isTimerActive := false |}.

(** The state after a press on each cell of the first eight rows, and the
    state after one more press, on the first cell of the ninth row. *)
Definition almostWon : State :=
  match play 11 (take 80 gridCoords) (newGame lastRowBoard) with
  | Returns st => st
  | _ => newGame lastRowBoard
  end.

Definition won : State :=
  match openCell 11 almostWon 8 0 with
  | Returns st => st
  | _ => almostWon
  end.

(** ** The events of a game *)

(** What happens to the component between two restarts: a press on a cell
    (line 171) or a firing of the interval (line 92). *)
Inductive Event : Type :=
| Press (row col : Z)
| Tick.

Definition handle (fuel : nat) (e : Event) (st : State) : res State :=
  match e with
  | Press row col => openCell fuel st row col
  | Tick => Returns (tick st)
  end.

Definition run (fuel : nat) (events : list Event) (st : State) : res State :=
  forEachM (handle fuel) events st.

(** The number of firings of the interval among the events. *)
Definition isTick (e : Event) : bool :=
  match e with
  | Tick => true
  | Press _ _ => false
  end.

Definition ticks (events : list Event) : Z :=
  Z.of_nat (length (filter (λ e, isTick e = true) events)).

(** A run of five events on the game of the examples. *)
Definition fiveEvents : list Event := [Tick; Press 0 0; Tick; Tick; Press 3 4].

Definition afterFiveEvents : State :=
  match run 11 fiveEvents (newGame lastRowBoard) with
  | Returns st => st
  | _ => newGame lastRowBoard
  end.

Global Instance Outcome_eq_dec : EqDecision Outcome.
Proof. solve_decision. Defined.

(** ** The samples and the mines *)

(** The coordinates the loop of lines 28-36 samples, in order. *)
Fixpoint pairsOf (rand : list Z) : list (Z * Z) :=
  match rand with
  | row :: col :: rand' => (row, col) :: pairsOf rand'
  | _ => []
  end.

(** The first [n] coordinates of a list that are neither in [seen] nor
    repeated. *)
Fixpoint firstDistinct (n : nat) (seen ps : list (Z * Z)) : list (Z * Z) :=
  match ps with
  | [] => []
  | p :: ps =>
      match n with
      | O => []
      | S n' =>
          if decide (p ∈ seen) then firstDistinct n seen ps
          else p :: firstDistinct n' (p :: seen) ps
      end
  end.

(** The range of [adjacentMines]: a count from 0 to 8, and 0 on a mine. *)
Definition countInRange (c : Cell) : Prop :=
  0 ≤ adjacentMines c ≤ 8 ∧ (isMine c = true → adjacentMines c = 0).

(** Samples that repeat a coordinate and go on after the tenth mine, and
    the board [createBoard] builds from them. *)
Definition repeatSamples : list Z := 3 :: 3 :: 3 :: 3 :: lastRowSamples ++ [0; 0].

Definition repeatBoard : Board :=
  match createBoard repeatSamples with
  | Returns b => b
  | _ => []
  end.

(** ** getNumberStyle (lines 201-222) *)

(** The colour of the style returned; [None] for the empty style [{}]. *)
Definition getNumberStyle (num : Z) : option string :=
  match num with
  | 1 => Some "blue"
  | 2 => Some "green"
  | 3 => Some "red"
  | 4 => Some "darkblue"
  | 5 => Some "darkred"
  | 6 => Some "turquoise"
  | 7 => Some "black"
  | 8 => Some "gray"
  | _ => None
  end.

(** ** The view of the component (lines 159-197) *)

(** What a cell shows: a bomb, or a number in the colour of
    [getNumberStyle]. *)
Inductive Label : Type :=
| Bomb
| Number (n : Z) (colour : option string).

(** The [TouchableOpacity] of a cell (lines 165-181): the background colour
    that results from the style array, whether presses are disabled, and the
    [Text] children that are rendered, in order ([false] renders nothing). *)
Record CellView : Type := mkCellView {
  backgroundColor : string;
  disabled : bool;
  labels : list Label;
}.

Definition renderCell (st : State) (cell : Cell) : CellView :=
  {| backgroundColor :=
       if isOpen cell then (if isMine cell then "red" else "lightgrey") else "green";
     disabled := isGameOver st || isGameWon st;
     labels :=
       (if isOpen cell && isMine cell then [Bomb] else []) ++
       (if showAllMines st && isMine cell then [Bomb] else []) ++
       (if isOpen cell && negb (isMine cell) && bool_decide (adjacentMines cell > 0)
        then [Number (adjacentMines cell) (getNumberStyle (adjacentMines cell))]
        else []) |}.


(** The text of the timer (line 161) and the message under the board (lines
    186-195), [None] when there is none. *)
Definition timerText (st : State) : string := "Time: " +:+ formatTime (timer st).

Definition message (st : State) : option string :=
  if isGameOver st || isGameWon st then
    Some (if isGameWon st then "Congratulations! You won!" else "Game Over! Try again")
  else None.

(** The number of rows, or of columns, of the grid next to an index of the
    grid, the index included. *)
Definition span (i : Z) : Z := if bool_decide (i = 0 ∨ i = BOARD_SIZE - 1) then 2 else 3.

(** * Properties *)

(** ** The result monad and the loops *)

Lemma bind_Returns {A B : Type} (m : res A) (f : A → res B) (b : B) :
  bind m f = Returns b ↔ ∃ a, m = Returns a ∧ f a = Returns b.
Proof.
  destruct m; simpl; split; try (intros [a' [? ?]]); try discriminate; eauto.
  by simplify_eq.
Qed.

(** [inv_bind H as x Hx]: from [H : (x <- m;; k) = Returns b], the value [x]
    that [m] returns, with [Hx : m = Returns x], and [H] about [k]. *)
Tactic Notation "inv_bind" hyp(H) "as" ident(x) ident(Hx) :=
  apply bind_Returns in H as (x & Hx & H).

Section loops.

Context {A S : Type}.
Implicit Types (f g : A → S → res S) (xs ys : list A) (acc : S).

(** A relation that every iteration respects relates the accumulators
    before and after the loop. *)
Lemma forEachM_invariant (R : S → S → Prop) `{!PreOrder R} f xs acc acc' :
  (∀ x a a', x ∈ xs → f x a = Returns a' → R a a') →
  forEachM f xs acc = Returns acc' → R acc acc'.
Proof.
  revert acc. induction xs as [|x xs IH]; simpl; intros acc Hf Hrun.
  - by simplify_eq.
  - inv_bind Hrun as a Ha.
    trans a.
    + eapply Hf; [|done]. by left.
    + apply IH; [|done]. intros y b b' Hy. apply Hf. by right.
Qed.

(** A loop whose iterations end, under an invariant they keep, ends. *)
Lemma forEachM_terminates (I : S → Prop) f xs acc :
  I acc →
  (∀ x a, x ∈ xs → I a → f x a ≠ OutOfFuel ∧ ∀ a', f x a = Returns a' → I a') →
  forEachM f xs acc ≠ OutOfFuel.
Proof.
  revert acc. induction xs as [|x xs IH]; simpl; intros acc Hacc Hf; [done|].
  destruct (Hf x acc) as [Hne Hstep]; [by left|done|].
  destruct (f x acc) as [a| |]; simpl; [|done|done].
  apply IH; [by apply Hstep|]. intros y b Hy. apply Hf. by right.
Qed.

(** Two bodies that agree where the first one ends give the same loop. *)
Lemma forEachM_ext_defined f g xs acc :
  (∀ x a, f x a ≠ OutOfFuel → g x a = f x a) →
  forEachM f xs acc ≠ OutOfFuel →
  forEachM g xs acc = forEachM f xs acc.
Proof.
  intros Hfg. revert acc. induction xs as [|x xs IH]; simpl; intros acc Hrun; [done|].
  specialize (Hfg x acc).
  destruct (f x acc) as [a| |]; [| |done]; rewrite Hfg by done; simpl in *; auto.
Qed.

Lemma forEachM_app f xs ys acc :
  forEachM f (xs ++ ys) acc = (acc' <- forEachM f xs acc;; forEachM f ys acc').
Proof.
  revert acc. induction xs as [|x xs IH]; simpl; intros acc; [done|].
  destruct (f x acc); simpl; auto.
Qed.
End loops.

Lemma forEachM_fmap {A B S : Type} (g : A → B) (f : B → S → res S) (xs : list A) (acc : S) :
  forEachM f (g <$> xs) acc = forEachM (λ x, f (g x)) xs acc.
Proof.
  revert acc. induction xs as [|x xs IH]; simpl; intros acc; [done|].
  destruct (f (g x) acc); simpl; auto.
Qed.

(** Two nested loops run their body over the pairs of indices. *)
Lemma forEachM_nested {A B S : Type} (f : A → B → S → res S)
    (xs : list A) (ys : list B) (acc : S) :
  forEachM (λ x, forEachM (f x) ys) xs acc =
  forEachM (λ p, f p.1 p.2) (x ← xs; pair x <$> ys) acc.
Proof.
  revert acc. induction xs as [|x xs IH]; simpl; intros acc; [done|].
  rewrite forEachM_app, forEachM_fmap. simpl.
  destruct (forEachM _ ys acc); simpl; auto.
Qed.

(** Induction on a list read two elements at a time. *)
Lemma list_pair_ind {A : Type} (P : list A → Prop) :
  P [] → (∀ x, P [x]) → (∀ x y l, P l → P (x :: y :: l)) → ∀ l, P l.
Proof.
  intros Hnil Hone Hstep l.
  assert (P l ∧ ∀ x, P (x :: l)) as [? _]; [|done].
  induction l as [|y l [IH1 IH2]]; split; auto.
Qed.

(** ** Reading and updating cells *)

Lemma at_index_Some {A : Type} (l : list A) (i : Z) (x : A) :
  at_index l i = Some x ↔ 0 ≤ i ∧ l !! Z.to_nat i = Some x.
Proof. unfold at_index. case_bool_decide; naive_solver. Qed.

Lemma at_index_alter {A : Type} (f : A → A) (l : list A) (i j : Z) :
  0 ≤ i →
  at_index (alter f (Z.to_nat i) l) j =
  if decide (j = i) then f <$> at_index l j else at_index l j.
Proof.
  intros Hi. unfold at_index. case_bool_decide; [|by case_decide].
  case_decide as Hij.
  - subst j. by rewrite list_lookup_alter_eq.
  - rewrite list_lookup_alter_ne; [done|lia].
Qed.

Lemma readCell_Returns (board : Board) (row col : Z) (v : option Cell) :
  readCell board row col = Returns v → getCell board row col = v.
Proof. unfold readCell, getCell. destruct (at_index board row); naive_solver. Qed.

Lemma cellProp_Returns {B : Type} (f : Cell → B) (board : Board) (row col : Z) (x : B) :
  cellProp f board row col = Returns x ↔
  ∃ cell, getCell board row col = Some cell ∧ f cell = x.
Proof.
  unfold cellProp, readCell, getCell.
  destruct (at_index board row) as [r|]; simpl; [|naive_solver].
  destruct (at_index r col); simpl; naive_solver.
Qed.

Lemma cellProp_not_OutOfFuel {B : Type} (f : Cell → B) (board : Board) (row col : Z) :
  cellProp f board row col ≠ OutOfFuel.
Proof.
  unfold cellProp, readCell.
  destruct (at_index board row) as [r|]; simpl; [|done].
  by destruct (at_index r col).
Qed.


Lemma getCell_Some_nonneg (board : Board) (row col : Z) (cell : Cell) :
  getCell board row col = Some cell → 0 ≤ row ∧ 0 ≤ col.
Proof.
  unfold getCell. destruct (at_index board row) as [r|] eqn:Hr; [|done].
  intros Hc. apply at_index_Some in Hr, Hc. lia.
Qed.

Lemma assignCell_Returns (f : Cell → Cell) (board board' : Board) (row col : Z) :
  assignCell f board row col = Returns board' ↔
  is_Some (getCell board row col) ∧
  board' = alter (alter f (Z.to_nat col)) (Z.to_nat row) board.
Proof.
  unfold assignCell, readCell, getCell.
  destruct (at_index board row) as [r|]; simpl; [|split; [done|by intros [[??] _]]].
  destruct (at_index r col); simpl; [naive_solver|].
  split; [done|by intros [[??] _]].
Qed.

Lemma assignCell_Some (f : Cell → Cell) (b : Board) (row col : Z) (c : Cell) :
  getCell b row col = Some c →
  assignCell f b row col = Returns (alter (alter f (Z.to_nat col)) (Z.to_nat row) b).
Proof. intros Hc. apply assignCell_Returns. eauto. Qed.

Lemma assignCell_not_OutOfFuel (f : Cell → Cell) (board : Board) (row col : Z) :
  assignCell f board row col ≠ OutOfFuel.
Proof.
  unfold assignCell, readCell.
  destruct (at_index board row) as [r|]; simpl; [|done].
  by destruct (at_index r col).
Qed.

Lemma getCell_alter (f : Cell → Cell) (board : Board) (row col row' col' : Z) :
  0 ≤ row → 0 ≤ col →
  getCell (alter (alter f (Z.to_nat col)) (Z.to_nat row) board) row' col' =
  if decide (row' = row ∧ col' = col) then f <$> getCell board row' col'
  else getCell board row' col'.
Proof.
  intros Hr Hc. unfold getCell. rewrite at_index_alter by done.
  destruct (decide (row' = row ∧ col' = col)) as [[-> ->]|Hne].
  - rewrite decide_True by done.
    destruct (at_index board row) as [r|]; simpl; [|done].
    rewrite at_index_alter by done. by rewrite decide_True.
  - destruct (decide (row' = row)) as [->|]; [|done].
    destruct (at_index board row) as [r|]; simpl; [|done].
    rewrite at_index_alter by done. rewrite decide_False; [done|naive_solver].
Qed.

Lemma getCell_assignCell (f : Cell → Cell) (board board' : Board) (row col row' col' : Z) :
  assignCell f board row col = Returns board' →
  getCell board' row' col' =
  if decide (row' = row ∧ col' = col) then f <$> getCell board row' col'
  else getCell board row' col'.
Proof.
  intros [[cell Hcell] ->]%assignCell_Returns.
  apply getCell_Some_nonneg in Hcell as [??]. by apply getCell_alter.
Qed.

Lemma Forall2_alter_diag {A : Type} (R : A → A → Prop) (f : A → A) (l : list A) (i : nat) :
  (∀ x, R x x) → (∀ x, R x (f x)) → Forall2 R l (alter f i l).
Proof.
  intros Hrefl Hf. revert i.
  induction l as [|x l IH]; intros [|i]; simpl; constructor; auto.
  - apply Forall_Forall2_diag, Forall_forall; auto.
  - apply IH.
Qed.

(** An update of one cell relates the boards cell by cell. *)
Lemma assignCell_Forall2 (R : Cell → Cell → Prop) (f : Cell → Cell)
    (board board' : Board) (row col : Z) :
  (∀ c, R c c) → (∀ c, R c (f c)) →
  assignCell f board row col = Returns board' →
  Forall2 (Forall2 R) board board'.
Proof.
  intros Hrefl Hf [_ ->]%assignCell_Returns.
  apply Forall2_alter_diag.
  - intros r. apply Forall_Forall2_diag, Forall_forall. auto.
  - intros r. by apply Forall2_alter_diag.
Qed.

Lemma Forall2_getCell (R : Cell → Cell → Prop) (b b' : Board) (row col : Z) (x : Cell) :
  Forall2 (Forall2 R) b b' → getCell b row col = Some x →
  ∃ x', getCell b' row col = Some x' ∧ R x x'.
Proof.
  unfold getCell. intros Hb Hx.
  destruct (at_index b row) as [r|] eqn:Hr; [|done].
  apply at_index_Some in Hr as [Hrow Hr], Hx as [Hcol Hx].
  destruct (Forall2_lookup_l _ _ _ _ _ Hb Hr) as (r' & Hr' & Hrr).
  destruct (Forall2_lookup_l _ _ _ _ _ Hrr Hx) as (x' & Hx' & Hxx).
  exists x'. split; [|done].
  rewrite (proj2 (at_index_Some b' row r')) by done.
  by apply at_index_Some.
Qed.

Lemma Forall2_getCell_None (R : Cell → Cell → Prop) (b b' : Board) (row col : Z) :
  Forall2 (Forall2 R) b b' → getCell b row col = None → getCell b' row col = None.
Proof.
  intros Hb Hx. destruct (getCell b' row col) as [x'|] eqn:Hx'; [|done].
  assert (Forall2 (Forall2 (flip R)) b' b) as Hb'.
  { apply Forall2_flip. eapply Forall2_impl; [done|]. intros r r' ?. by apply Forall2_flip. }
  destruct (Forall2_getCell _ _ _ _ _ _ Hb' Hx') as (x & ? & _). congruence.
Qed.

Lemma getCell_outside (b : Board) (row col : Z) :
  square b → inBounds row col = false → getCell b row col = None.
Proof.
  intros [Hlen Hrows] Hout. destruct (getCell b row col) as [c|] eqn:Hc; [|done].
  unfold getCell in Hc. destruct (at_index b row) as [r|] eqn:Hr; [|done].
  apply at_index_Some in Hr as [? Hr], Hc as [? Hc].
  pose proof (lookup_lt_Some _ _ _ Hr) as Hlt.
  pose proof (lookup_lt_Some _ _ _ Hc) as Hlt'.
  rewrite Forall_forall in Hrows. rewrite (Hrows r) in Hlt' by (by eapply list_elem_of_lookup_2).
  unfold inBounds in Hout. rewrite !andb_false_iff, !bool_decide_eq_false in Hout.
  unfold BOARD_SIZE in *. lia.
Qed.

Lemma getCell_inside (b : Board) (row col : Z) :
  square b → inBounds row col = true → is_Some (getCell b row col).
Proof.
  intros [Hlen Hrows] Hin. unfold inBounds in Hin.
  repeat (apply andb_prop in Hin as [Hin ?]).
  repeat match goal with H : bool_decide _ = true |- _ => apply bool_decide_eq_true in H end.
  unfold BOARD_SIZE in *.
  destruct (lookup_lt_is_Some_2 b (Z.to_nat row)) as [r Hr]; [lia|].
  rewrite Forall_forall in Hrows.
  destruct (lookup_lt_is_Some_2 r (Z.to_nat col)) as [c Hc].
  { rewrite (Hrows r) by (by eapply list_elem_of_lookup_2). lia. }
  exists c. unfold getCell.
  rewrite (proj2 (at_index_Some b row r)) by done. by apply at_index_Some.
Qed.

Lemma square_Forall2 (R : Cell → Cell → Prop) (b b' : Board) :
  Forall2 (Forall2 R) b b' → square b → square b'.
Proof.
  intros Hb [Hlen Hrows]. split.
  - by rewrite <- (Forall2_length _ _ _ Hb).
  - eapply Forall2_Forall_r; [done|]. eapply Forall_impl; [done|].
    intros r Hr r' Hrr. by rewrite <- (Forall2_length _ _ _ Hrr).
Qed.

(** ** Counting cells *)

Lemma count_alter {A : Type} (P : A → bool) (f : A → A) (l : list A) (i : nat) (x : A) :
  l !! i = Some x →
  (length (filter (λ c, P c = true) (alter f i l)) + (if P x then 1 else 0) =
   length (filter (λ c, P c = true) l) + (if P (f x) then 1 else 0))%nat.
Proof.
  revert i. induction l as [|y l IH]; intros [|i] Hi; simplify_eq/=.
  - rewrite !filter_cons. destruct (P x) eqn:Hx, (P (f x)) eqn:Hfx;
      repeat case_decide; simplify_eq/=; try congruence; lia.
  - specialize (IH i Hi). change (list_alter f i l) with (alter f i l).
    rewrite !filter_cons. case_decide; simpl; lia.
Qed.

Lemma countCells_alter (P : Cell → bool) (g : list Cell → list Cell) (b : Board)
    (i : nat) (r : list Cell) :
  b !! i = Some r →
  (countCells P (alter g i b) + length (filter (λ c, P c = true) r) =
   countCells P b + length (filter (λ c, P c = true) (g r)))%nat.
Proof.
  unfold countCells. revert i. induction b as [|y b IH]; intros [|i] Hi; simplify_eq/=.
  - rewrite !filter_app, !length_app. lia.
  - specialize (IH i Hi). change (list_alter g i b) with (alter g i b).
    rewrite !filter_app, !length_app. lia.
Qed.

Lemma countCells_assignCell (P : Cell → bool) (f : Cell → Cell) (b b' : Board)
    (row col : Z) (c : Cell) :
  getCell b row col = Some c →
  assignCell f b row col = Returns b' →
  (countCells P b' + (if P c then 1 else 0) =
   countCells P b + (if P (f c) then 1 else 0))%nat.
Proof.
  intros Hc [_ ->]%assignCell_Returns. unfold getCell in Hc.
  destruct (at_index b row) as [r|] eqn:Hr; [|done].
  apply at_index_Some in Hr as [_ Hr], Hc as [_ Hc].
  pose proof (countCells_alter P (alter f (Z.to_nat col)) b _ _ Hr).
  pose proof (count_alter P f r _ _ Hc). lia.
Qed.

Lemma count_Forall2_le {A : Type} (R : A → A → Prop) (P : A → bool) (l l' : list A) :
  (∀ c c', R c c' → P c' = true → P c = true) →
  Forall2 R l l' →
  (length (filter (λ c, P c = true) l') ≤ length (filter (λ c, P c = true) l))%nat.
Proof.
  intros HR. induction 1 as [|x y l l' Hxy _ IH]; [done|].
  rewrite !filter_cons. specialize (HR _ _ Hxy).
  repeat case_decide; simpl; try lia. naive_solver.
Qed.

Lemma countCells_Forall2_le (R : Cell → Cell → Prop) (P : Cell → bool) (b b' : Board) :
  (∀ c c', R c c' → P c' = true → P c = true) →
  Forall2 (Forall2 R) b b' →
  (countCells P b' ≤ countCells P b)%nat.
Proof.
  intros HR. unfold countCells. induction 1 as [|r r' b b' Hrr _ IH]; [done|].
  simpl. rewrite !filter_app, !length_app.
  pose proof (count_Forall2_le R P _ _ HR Hrr). lia.
Qed.

Lemma countCells_Forall2_eq (R : Cell → Cell → Prop) (P : Cell → bool) (b b' : Board) :
  (∀ c c', R c c' → P c' = P c) →
  Forall2 (Forall2 R) b b' →
  countCells P b' = countCells P b.
Proof.
  intros HR Hb. apply Nat.le_antisymm.
  - eapply countCells_Forall2_le; [|done]. intros c c' ?. by rewrite (HR c c').
  - apply (countCells_Forall2_le (flip R)).
    + intros c c' ?. by rewrite (HR c' c).
    + apply Forall2_flip. eapply Forall2_impl; [done|]. intros r r' ?. by apply Forall2_flip.
Qed.

Lemma count_zero {A : Type} (P : A → bool) (l : list A) :
  length (filter (λ c, P c = true) l) = 0%nat ↔ Forall (λ c, P c = false) l.
Proof.
  induction l as [|x l IH]; simpl.
  - split; [constructor|done].
  - rewrite filter_cons, Forall_cons, <- IH. case_decide as Hx; simpl.
    + split; [done|]. intros [? _]. congruence.
    + apply not_true_is_false in Hx. naive_solver.
Qed.

Lemma countCells_zero (P : Cell → bool) (b : Board) :
  countCells P b = 0%nat ↔ Forall (Forall (λ c, P c = false)) b.
Proof.
  unfold countCells. induction b as [|r b IH]; simpl.
  - split; [constructor|done].
  - rewrite filter_app, length_app, Forall_cons, <- IH, <- count_zero. lia.
Qed.

(** ** Neighbours *)

(** [neighbours] lists, without repetition, the coordinates of the grid at
    Chebyshev distance 1. *)
Lemma elem_of_neighbours (row col : Z) (p : Z * Z) :
  p ∈ neighbours row col ↔ inBounds p.1 p.2 = true ∧ chebyshev (row, col) p = 1.
Proof.
  unfold neighbours, chebyshev. rewrite list_elem_of_filter.
  rewrite !elem_of_cons, elem_of_nil. destruct p as [r c]; simpl.
  split.
  - intros [? Hp]. split; [done|]. destruct_or!; simplify_eq; lia.
  - intros [? Hd]. split; [done|].
    assert (r = row - 1 ∨ r = row ∨ r = row + 1) as Hr by lia.
    assert (c = col - 1 ∨ c = col ∨ c = col + 1) as Hc by lia.
    destruct Hr as [-> | [-> | ->]], Hc as [-> | [-> | ->]]; auto 10.
    lia.
Qed.

Lemma NoDup_neighbours (row col : Z) : NoDup (neighbours row col).
Proof.
  unfold neighbours. apply NoDup_filter.
  repeat (apply NoDup_cons; split;
          [rewrite ?elem_of_cons, elem_of_nil; intros ?; destruct_or?; simplify_eq; lia|]).
  apply NoDup_nil_2.
Qed.

Lemma neighbours_directions (row col : Z) :
  neighbours row col =
  filter (λ p, inBounds p.1 p.2 = true) (map (λ d, (row + d.1, col + d.2)) directions).
Proof. unfold neighbours. simpl. by rewrite !Z.add_0_r. Qed.

Example neighbours_corner : neighbours 0 0 = [(0, 1); (1, 0); (1, 1)].
Proof. reflexivity. Qed.

Example neighbours_middle : length (neighbours 4 5) = 8%nat.
Proof. reflexivity. Qed.

(** What [getAdjacentCells] returns: the cells at the neighbours, in the
    order of [directions]. *)
Lemma getAdjacentCells_Returns (b : Board) (row col : Z) (cells : list (option Cell)) :
  getAdjacentCells b row col = Returns cells →
  cells = map (λ p, getCell b p.1 p.2) (neighbours row col).
Proof.
  rewrite neighbours_directions. unfold getAdjacentCells.
  intros (cs & Hcs & ?)%bind_Returns. simplify_eq.
  revert cs Hcs. generalize directions. intros ds.
  induction ds as [|d ds IH]; simpl; intros cs Hcs; [by simplify_eq|].
  inv_bind Hcs as y Hy.
  apply bind_Returns in Hcs as (ys & Hys & ?). simplify_eq.
  specialize (IH _ Hys). rewrite filter_cons. unfold adjacentAt in Hy. simpl in *.
  destruct (inBounds (row + d.1) (col + d.2)).
  - apply bind_Returns in Hy as (v & Hv%readCell_Returns & ?). simplify_eq.
    rewrite decide_True by done. simpl. f_equal. exact IH.
  - simplify_eq. rewrite decide_False by done. simpl. exact IH.
Qed.

Lemma getAdjacentCells_not_OutOfFuel (b : Board) (row col : Z) :
  getAdjacentCells b row col ≠ OutOfFuel.
Proof.
  unfold getAdjacentCells. generalize directions. intros ds.
  assert (mapM (adjacentAt b row col) ds ≠ OutOfFuel) as Hmap.
  { induction ds as [|d ds IHds]; simpl; [done|].
    unfold adjacentAt at 1. destruct (inBounds _ _); simpl.
    - unfold readCell. destruct (at_index b _); simpl; [|done].
      by destruct (mapM _ ds).
    - by destruct (mapM _ ds). }
  by destruct (mapM _ ds).
Qed.

Lemma getAdjacentCells_square (b : Board) (row col : Z) :
  square b →
  ∃ cells, getAdjacentCells b row col = Returns (Some <$> cells).
Proof.
  intros Hb. unfold getAdjacentCells.
  assert (∃ cs cells, mapM (adjacentAt b row col) directions = Returns cs ∧
                      omap id cs = Some <$> cells) as (cs & cells & -> & Hcs).
  { generalize directions. intros ds.
    induction ds as [|d ds (cs & cells & IH & Hcs)]; simpl; [by exists [], []|].
    rewrite IH. unfold adjacentAt. destruct (inBounds _ _) eqn:Hin; simpl.
    - destruct (getCell_inside b _ _ Hb Hin) as [c Hc].
      unfold getCell in Hc. unfold readCell.
      destruct (at_index b (row + d.1)) as [r|]; [|done]. simpl. rewrite Hc.
      exists (Some (Some c) :: cs), (c :: cells). split; [done|].
      simpl. f_equal. exact Hcs.
    - by exists (None :: cs), cells. }
  simpl. exists cells. by rewrite Hcs.
Qed.

Lemma countMines_Returns (b : Board) (ps : list (Z * Z)) (n : Z) :
  countMines (map (λ p, getCell b p.1 p.2) ps) = Returns n →
  n = Z.of_nat (length (filter (λ p, mineAt b p = true) ps)).
Proof.
  unfold countMines. intros (flags & Hflags & ?)%bind_Returns. simplify_eq.
  f_equal. revert flags Hflags.
  induction ps as [|p ps IH]; simpl; intros flags Hflags; [by simplify_eq|].
  inv_bind Hflags as y Hy.
  apply bind_Returns in Hflags as (ys & Hys & ?). simplify_eq.
  specialize (IH _ Hys).
  assert (mineAt b p = y) as Hp.
  { unfold mineAt. by destruct (getCell b p.1 p.2); simplify_eq/=. }
  rewrite !filter_cons, Hp. case_decide; simpl; congruence.
Qed.

Lemma countMines_Some (cells : list Cell) :
  ∃ n, countMines (Some <$> cells) = Returns n.
Proof.
  unfold countMines.
  assert (∃ flags, mapM (prop isMine) (Some <$> cells) = Returns flags) as [flags ->].
  { induction cells as [|c cells [flags IH]]; [by eexists|].
    rewrite fmap_cons. cbn [mapM prop bind]. rewrite IH. by eexists. }
  simpl. by eexists.
Qed.

Example getAdjacentCells_corner :
  getAdjacentCells lastRowBoard 0 0 = Returns (replicate 3 (Some (mkCell false false false 0))).
Proof. reflexivity. Qed.

Example getAdjacentCells_next_to_mines :
  (cells <- getAdjacentCells lastRowBoard 8 0;; countMines cells) = Returns 2.
Proof. reflexivity. Qed.

(** ** Board generation *)

Global Instance sameLayout_preorder : PreOrder sameLayout.
Proof.
  split.
  - by intros c.
  - intros c1 c2 c3 (? & ? & ?) (? & ? & ?). unfold sameLayout. split_and!; congruence.
Qed.

Global Instance sameMarks_preorder : PreOrder sameMarks.
Proof.
  split.
  - by intros c.
  - intros c1 c2 c3 (? & ?) (? & ?). unfold sameMarks. split_and!; congruence.
Qed.

Lemma placeMines_sameMarks (rand : list Z) (k : Z) (b b' : Board) :
  placeMines rand k b = Returns b' → Forall2 (Forall2 sameMarks) b b'.
Proof.
  revert k b. induction rand as [| |row col rand IH] using list_pair_ind;
    intros k b; simpl; case_bool_decide; intros Hrun; simplify_eq; try reflexivity.
  inv_bind Hrun as m Hm. destruct m; simpl in Hrun; [by eapply IH|].
  inv_bind Hrun as b1 Hb1.
  trans b1; [|by eapply IH].
  eapply assignCell_Forall2; [| |done]; by intros c.
Qed.

Lemma placeMines_count (rand : list Z) (k : Z) (b b' : Board) :
  placeMines rand k b = Returns b' →
  Z.of_nat (countCells isMine b) = k → k ≤ MINES_COUNT →
  Z.of_nat (countCells isMine b') = MINES_COUNT.
Proof.
  revert k b. induction rand as [| |row col rand IH] using list_pair_ind;
    intros k b; simpl; case_bool_decide; intros Hrun Hk Hle; simplify_eq; try lia.
  inv_bind Hrun as m Hm. destruct m; simpl in Hrun; [by eapply IH|].
  inv_bind Hrun as b1 Hb1.
  apply cellProp_Returns in Hm as (c & Hc & Hm).
  pose proof (countCells_assignCell isMine _ _ _ _ _ _ Hc Hb1) as Hcount.
  rewrite Hm in Hcount. simpl in Hcount.
  eapply IH; [done| |]; lia.
Qed.

Lemma mineAt_sameLayout (b b' : Board) (p : Z * Z) :
  Forall2 (Forall2 sameLayout) b b' → mineAt b' p = mineAt b p.
Proof.
  intros Hb. unfold mineAt. destruct (getCell b p.1 p.2) as [c|] eqn:Hc.
  - destruct (Forall2_getCell _ _ _ _ _ _ Hb Hc) as (c' & -> & Hcc). apply Hcc.
  - by rewrite (Forall2_getCell_None _ _ _ _ _ Hb Hc).
Qed.

Lemma neighbourMines_sameLayout (b b' : Board) (row col : Z) :
  Forall2 (Forall2 sameLayout) b b' → neighbourMines b' row col = neighbourMines b row col.
Proof.
  intros Hb. unfold neighbourMines. do 2 f_equal.
  apply list_filter_iff. intros p. by rewrite (mineAt_sameLayout b b').
Qed.

Lemma countAdjacent_sameLayout (row col : Z) (b b' : Board) :
  countAdjacent row col b = Returns b' → Forall2 (Forall2 sameLayout) b b'.
Proof.
  unfold countAdjacent. intros (m & Hm & Hrun)%bind_Returns.
  destruct m; simpl in Hrun; [by simplify_eq|].
  inv_bind Hrun as cells Hcells.
  inv_bind Hrun as n Hn.
  eapply assignCell_Forall2; [| |done]; by intros c.
Qed.

Lemma countAdjacent_establish (row col : Z) (b b' : Board) :
  countAdjacent row col b = Returns b' → adjacentOK b' (row, col).
Proof.
  intros Hrun. pose proof (countAdjacent_sameLayout _ _ _ _ Hrun) as Hlayout.
  revert Hrun. unfold countAdjacent. intros (m & Hm & Hrun)%bind_Returns.
  apply cellProp_Returns in Hm as (c & Hc & Hm).
  intros cell Hcell Hsafe. simpl in *.
  destruct m; simpl in Hrun. { simplify_eq. congruence. }
  inv_bind Hrun as cells Hcells.
  inv_bind Hrun as n Hn.
  apply getAdjacentCells_Returns in Hcells as ->.
  apply countMines_Returns in Hn.
  rewrite (getCell_assignCell _ _ _ _ _ row col Hrun), Hc in Hcell.
  rewrite decide_True in Hcell by done. simplify_eq/=.
  by rewrite (neighbourMines_sameLayout b b').
Qed.

Lemma countAdjacent_preserve (row col : Z) (b b' : Board) (p : Z * Z) :
  countAdjacent row col b = Returns b' → adjacentOK b p → adjacentOK b' p.
Proof.
  intros Hrun Hp. destruct (decide (p = (row, col))) as [->|Hne].
  { by eapply countAdjacent_establish. }
  pose proof (countAdjacent_sameLayout _ _ _ _ Hrun) as Hlayout.
  intros cell Hcell Hsafe. rewrite (neighbourMines_sameLayout b b') by done.
  apply Hp; [|done]. rewrite <- Hcell.
  revert Hrun. unfold countAdjacent. intros (m & Hm & Hrun)%bind_Returns.
  destruct m; simpl in Hrun; [by simplify_eq|].
  inv_bind Hrun as cells Hcells.
  inv_bind Hrun as n Hn.
  rewrite (getCell_assignCell _ _ _ _ _ p.1 p.2 Hrun).
  rewrite decide_False; [done|]. destruct p. naive_solver.
Qed.

Lemma forEachM_countAdjacent (ps : list (Z * Z)) (b b' : Board) :
  forEachM (λ p, countAdjacent p.1 p.2) ps b = Returns b' →
  Forall2 (Forall2 sameLayout) b b' ∧ ∀ p, p ∈ ps → adjacentOK b' p.
Proof.
  revert b. induction ps as [|[row col] ps IH]; simpl; intros b Hrun.
  - simplify_eq. split; [reflexivity|]. by intros p ?%elem_of_nil.
  - inv_bind Hrun as b1 Hb1.
    destruct (IH _ Hrun) as [Hlayout Hps]. split.
    + trans b1; [|done]. by eapply countAdjacent_sameLayout.
    + intros p [->|Hp]%elem_of_cons; [|by apply Hps].
      apply countAdjacent_establish in Hb1. clear IH Hps Hlayout.
      revert b1 Hb1 Hrun. induction ps as [|[row' col'] ps IH]; simpl; intros b1 Hb1 Hrun.
      * by simplify_eq.
      * inv_bind Hrun as b2 Hb2.
        eapply IH; [|done]. by eapply countAdjacent_preserve.
Qed.

Lemma countAll_Returns (b b' : Board) :
  countAll b = Returns b' →
  Forall2 (Forall2 sameLayout) b b' ∧ ∀ p, p ∈ gridCoords → adjacentOK b' p.
Proof.
  unfold countAll. rewrite (forEachM_nested countAdjacent). apply forEachM_countAdjacent.
Qed.

Lemma getCell_blankBoard (row col : Z) (c : Cell) :
  getCell blankBoard row col = Some c → (row, col) ∈ gridCoords ∧ c = blankCell.
Proof.
  unfold getCell, blankBoard.
  destruct (at_index _ row) as [r|] eqn:Hr; [|done].
  intros Hc. apply at_index_Some in Hr as [? [-> ?]%lookup_replicate].
  apply at_index_Some in Hc as [? [-> ?]%lookup_replicate].
  split; [|done]. unfold gridCoords.
  apply list_elem_of_bind. exists row. rewrite elem_of_seqZ. split; [|lia].
  apply list_elem_of_fmap. exists col. rewrite elem_of_seqZ. split; [done|lia].
Qed.

Lemma square_blankBoard : square blankBoard.
Proof.
  split; [apply length_replicate|].
  apply Forall_forall. intros r [-> _]%elem_of_replicate. apply length_replicate.
Qed.

Example createBoard_lastRow : createBoard lastRowSamples = Returns lastRowBoard.
Proof. vm_compute. reflexivity. Qed.

Lemma createBoard_marks (rand : list Z) (b : Board) :
  createBoard rand = Returns b → Forall2 (Forall2 sameMarks) blankBoard b.
Proof.
  unfold createBoard. intros (b1 & Hb1 & Hb)%bind_Returns.
  apply placeMines_sameMarks in Hb1. apply countAll_Returns in Hb as [Hb _].
  trans b1; [done|]. eapply Forall2_impl; [done|]. intros r r' Hr.
  eapply Forall2_impl; [done|]. by intros c c' (_ & ? & ?).
Qed.

Lemma createBoard_shape (rand : list Z) (b : Board) :
  createBoard rand = Returns b → square b.
Proof.
  intros Hb%createBoard_marks.
  eapply square_Forall2; [exact Hb|apply square_blankBoard].
Qed.

Lemma createBoard_closed (rand : list Z) (b : Board) :
  createBoard rand = Returns b → countCells isOpen b = 0%nat.
Proof.
  intros Hb%createBoard_marks.
  by rewrite (countCells_Forall2_eq sameMarks isOpen blankBoard b);
    [|intros c c' (? & _)|].
Qed.

(** C5: a board that [createBoard] returns holds exactly [MINES_COUNT] = 10
    mines, has no open and no flagged cell, and every cell without a mine
    carries the number of mines among its neighbours, the up to 8 cells at
    Chebyshev distance 1 inside the grid ([elem_of_neighbours]). *)
Theorem createBoard_correct (rand : list Z) (b : Board) :
  createBoard rand = Returns b →
  Z.of_nat (countCells isMine b) = MINES_COUNT ∧
  countCells isOpen b = 0%nat ∧
  countCells isFlagged b = 0%nat ∧
  ∀ row col cell,
    getCell b row col = Some cell → isMine cell = false →
    adjacentMines cell = neighbourMines b row col.
Proof.
  intros Hrun. pose proof (createBoard_marks _ _ Hrun) as Hblank.
  revert Hrun. unfold createBoard. intros (b1 & Hb1 & Hb)%bind_Returns.
  pose proof (placeMines_count _ _ _ _ Hb1 eq_refl) as Hcount.
  apply countAll_Returns in Hb as [Hlayout Hadj].
  split_and!.
  - rewrite (countCells_Forall2_eq sameLayout isMine b1 b); [|by intros c c' (? & _)|done].
    apply Hcount. unfold MINES_COUNT. lia.
  - rewrite (countCells_Forall2_eq sameMarks isOpen blankBoard b);
      [done|by intros c c' (? & _)|done].
  - rewrite (countCells_Forall2_eq sameMarks isFlagged blankBoard b);
      [done|by intros c c' (_ & ?)|done].
  - intros row col cell Hcell Hsafe. apply (Hadj (row, col)); [|done..].
    assert (Forall2 (Forall2 (flip sameMarks)) b blankBoard) as Hflip.
    { apply Forall2_flip. eapply Forall2_impl; [done|]. intros r r' ?. by apply Forall2_flip. }
    destruct (Forall2_getCell _ _ _ _ _ _ Hflip Hcell) as (c0 & Hc0 & _).
    by apply getCell_blankBoard in Hc0 as [? _].
Qed.

Lemma createBoard_correct_witness :
  createBoard lastRowSamples = Returns lastRowBoard ∧
  Z.of_nat (countCells isMine lastRowBoard) = MINES_COUNT ∧
  countCells isOpen lastRowBoard = 0%nat ∧
  countCells isFlagged lastRowBoard = 0%nat ∧
  ∀ row col cell,
    getCell lastRowBoard row col = Some cell → isMine cell = false →
    adjacentMines cell = neighbourMines lastRowBoard row col.
Proof.
  split; [vm_compute; reflexivity|].
  apply (createBoard_correct lastRowSamples lastRowBoard). vm_compute. reflexivity.
Defined.

(** ** Generation never throws *)

Lemma placeMines_not_Throws (rand : list Z) (k : Z) (b : Board) :
  square b → Forall (λ x, 0 ≤ x < BOARD_SIZE) rand → placeMines rand k b ≠ Throws.
Proof.
  revert k b. induction rand as [| |row col rand IH] using list_pair_ind;
    intros k b Hb Hrand; simpl; case_bool_decide; try done.
  apply Forall_cons in Hrand as [Hrow [Hcol Hrand]%Forall_cons].
  destruct (getCell_inside b row col Hb) as [c Hc].
  { unfold inBounds. rewrite !bool_decide_eq_true_2 by lia. done. }
  rewrite (proj2 (cellProp_Returns isMine b row col (isMine c))) by eauto. simpl.
  destruct (isMine c); simpl; [by apply IH|].
  pose proof (assignCell_Some setMine b row col c Hc) as Hb1. rewrite Hb1. simpl.
  apply IH; [|done]. eapply (square_Forall2 (λ _ _, True)); [|done].
  eapply assignCell_Forall2; [| |done]; done.
Qed.

Lemma countAdjacent_square (row col : Z) (b : Board) :
  square b → inBounds row col = true →
  ∃ b', countAdjacent row col b = Returns b' ∧ square b'.
Proof.
  intros Hb Hin. destruct (getCell_inside b row col Hb Hin) as [c Hc].
  unfold countAdjacent.
  rewrite (proj2 (cellProp_Returns isMine b row col (isMine c))) by eauto. simpl.
  destruct (isMine c); simpl; [by eexists|].
  destruct (getAdjacentCells_square b row col Hb) as [cells ->]. simpl.
  destruct (countMines_Some cells) as [n ->]. simpl.
  pose proof (assignCell_Some (setAdjacentMines n) b row col c Hc) as Hb1.
  eexists. split; [done|]. eapply (square_Forall2 (λ _ _, True)); [|done].
  eapply assignCell_Forall2; [| |done]; done.
Qed.

Lemma countAll_square (b : Board) :
  square b → ∃ b', countAll b = Returns b'.
Proof.
  intros Hb. unfold countAll. rewrite (forEachM_nested countAdjacent).
  assert (Forall (λ p, inBounds p.1 p.2 = true) (row ← seqZ 0 BOARD_SIZE; pair row <$> seqZ 0 BOARD_SIZE))
    as Hcoords.
  { apply Forall_forall. intros [row col] (r & Hp & Hr)%list_elem_of_bind.
    apply list_elem_of_fmap in Hp as (c & ? & Hc). simplify_eq/=.
    apply elem_of_seqZ in Hr, Hc. unfold inBounds.
    rewrite !bool_decide_eq_true_2 by lia. done. }
  revert b Hb. induction Hcoords as [|[row col] ps Hp _ IH]; intros b Hb; simpl.
  - by eexists.
  - destruct (countAdjacent_square row col b Hb Hp) as (b1 & -> & Hb1). simpl. by apply IH.
Qed.

(** With samples in the range of [Math.floor(Math.random() * BOARD_SIZE)],
    [createBoard] never throws: it returns a board as soon as the samples
    hold enough free coordinates for [MINES_COUNT] mines. *)
Lemma createBoard_not_Throws (rand : list Z) :
  Forall (λ x, 0 ≤ x < BOARD_SIZE) rand → createBoard rand ≠ Throws.
Proof.
  intros Hrand. unfold createBoard.
  pose proof (placeMines_not_Throws rand 0 blankBoard square_blankBoard Hrand) as Hplace.
  destruct (placeMines rand 0 blankBoard) as [b1| |] eqn:Hb1; simpl; [|done..].
  destruct (countAll_square b1) as [b' ->]; [|done].
  eapply (square_Forall2 sameMarks); [|apply square_blankBoard].
  by eapply placeMines_sameMarks.
Qed.

(** ** What a reveal changes *)

Lemma outcome_InProgress (st : State) :
  outcome st = InProgress ↔ isGameOver st = false ∧ isGameWon st = false.
Proof. unfold outcome. destruct (isGameWon st), (isGameOver st); naive_solver. Qed.

Global Instance opened_preorder : PreOrder opened.
Proof.
  split.
  - intros c. by left.
  - intros c1 c2 c3 [->|(Hm & Ho & ->)] [->|(Hm' & Ho' & ->)]; unfold opened; auto.
Qed.

Global Instance revealed_preorder : PreOrder revealed.
Proof.
  split.
  - intros b. apply Forall_Forall2_diag, Forall_forall. intros r _.
    apply Forall_Forall2_diag, Forall_forall. intros c _. reflexivity.
  - intros b1 b2 b3. apply Forall2_trans. intros r1 r2 r3.
    apply Forall2_trans. intros c1 c2 c3 ??. by trans c2.
Qed.

Lemma assignCell_revealed (b b' : Board) (row col : Z) :
  cellProp isOpen b row col = Returns false →
  cellProp isMine b row col = Returns false →
  assignCell setOpen b row col = Returns b' →
  revealed b b'.
Proof.
  intros (c & Hc & Ho)%cellProp_Returns (c' & Hc' & Hm)%cellProp_Returns.
  assert (c' = c) as -> by congruence.
  intros [_ ->]%assignCell_Returns.
  apply getCell_Some_nonneg in Hc as Hnn. destruct Hnn as [Hrow Hcol].
  unfold getCell in Hc. destruct (at_index b row) as [r|] eqn:Hr; [|done].
  apply at_index_Some in Hr as [_ Hr], Hc as [_ Hc].
  apply Forall2_same_length_lookup. split; [by rewrite length_alter|].
  intros i r1 r2 Hr1. destruct (decide (i = Z.to_nat row)) as [->|Hi].
  - rewrite list_lookup_alter_eq, Hr. simpl. intros ?. simplify_eq.
    apply Forall2_same_length_lookup. split; [by rewrite length_alter|].
    intros j c1 c2 Hc1. destruct (decide (j = Z.to_nat col)) as [->|Hj].
    + rewrite list_lookup_alter_eq, Hc. simpl. intros ?. simplify_eq. by right.
    + rewrite list_lookup_alter_ne by done. intros ?. simplify_eq. by left.
  - rewrite list_lookup_alter_ne by done. intros ?. simplify_eq. reflexivity.
Qed.

Lemma openCellRecursive_revealed (fuel : nat) (b b' : Board) (row col : Z) :
  openCellRecursive fuel b row col = Returns b' → revealed b b'.
Proof.
  revert b b' row col. induction fuel as [|fuel IH]; intros b b' row col; simpl; [done|].
  destruct (_ || _); [by intros; simplify_eq|].
  intros (o & Ho & Hrun)%bind_Returns.
  inv_bind Hrun as m Hm.
  destruct m; [by simplify_eq|].
  destruct o; [done|].
  inv_bind Hrun as b1 Hb1.
  inv_bind Hrun as a Ha.
  trans b1; [by eapply assignCell_revealed|].
  case_bool_decide; [|by simplify_eq].
  inv_bind Hrun as neighbors Hn.
  eapply (forEachM_invariant revealed); [|done].
  intros index b2 b3 _. apply IH.
Qed.

Lemma openCell_revealed (fuel : nat) (st st' : State) (row col : Z) :
  openCell fuel st row col = Returns st' → revealed (board st) (board st').
Proof.
  unfold openCell. destruct (_ || _); [by intros; simplify_eq|].
  intros (o & Ho & Hrun)%bind_Returns.
  inv_bind Hrun as f Hf.
  destruct f; [by simplify_eq|].
  inv_bind Hrun as b' Hb'.
  apply openCellRecursive_revealed in Hb'.
  inv_bind Hrun as m Hm.
  destruct m; [by simplify_eq|].
  destruct (checkWin b'); by simplify_eq.
Qed.

Lemma opened_frame (c c' : Cell) : opened c c' → frame c c'.
Proof. intros [->|(Hm & Ho & ->)]; unfold frame; simpl; repeat split; auto. Qed.

(** C7: a reveal that returns keeps the shape of the board and, in every
    cell, the fields [isMine], [isFlagged] and [adjacentMines]; [isOpen] is
    kept or goes from false to true. *)
Theorem reveal_frame (fuel : nat) (st st' : State) (row col : Z) :
  openCell fuel st row col = Returns st' →
  Forall2 (Forall2 frame) (board st) (board st').
Proof.
  intros Hrun%openCell_revealed. eapply Forall2_impl; [exact Hrun|].
  intros r r' Hr. eapply Forall2_impl; [exact Hr|]. apply opened_frame.
Qed.

Lemma reveal_frame_witness :
  openCell 11 (newGame lastRowBoard) 0 0 = Returns afterCorner ∧
  Forall2 (Forall2 frame) lastRowBoard (board afterCorner).
Proof.
  split; [vm_compute; reflexivity|].
  apply (reveal_frame 11 (newGame lastRowBoard) afterCorner 0 0).
  vm_compute. reflexivity.
Defined.

(** ** Termination of a reveal *)

(** On an open cell the recursion returns at once. *)
Lemma openCellRecursive_open (fuel : nat) (b : Board) (row col : Z) :
  cellProp isOpen b row col = Returns true →
  openCellRecursive (S fuel) b row col = Returns b.
Proof. intros Ho. simpl. destruct (_ || _); [done|]. by rewrite Ho. Qed.

Lemma revealed_stays_open (b b' : Board) (row col : Z) :
  revealed b b' →
  cellProp isOpen b row col = Returns true →
  cellProp isOpen b' row col = Returns true.
Proof.
  intros Hb (c & Hc & Ho)%cellProp_Returns.
  destruct (Forall2_getCell _ _ _ _ _ _ Hb Hc) as (c' & Hc' & Hcc).
  apply cellProp_Returns. exists c'. split; [done|].
  by destruct Hcc as [->|(_ & _ & ->)].
Qed.

Lemma assignCell_setOpen_open (b b' : Board) (row col : Z) :
  assignCell setOpen b row col = Returns b' →
  cellProp isOpen b' row col = Returns true.
Proof.
  intros Hb. pose proof (getCell_assignCell _ _ _ _ _ row col Hb) as Hget.
  rewrite decide_True in Hget by done.
  apply assignCell_Returns in Hb as [[c Hc] _]. rewrite Hc in Hget.
  apply cellProp_Returns. by exists (setOpen c).
Qed.

(** The recursion moves one row down at each level, or stays on the cell it
    has just opened: [BOARD_SIZE - row + 1] levels are enough. *)
Lemma openCellRecursive_terminates (fuel : nat) (b : Board) (row col : Z) :
  BOARD_SIZE - row < Z.of_nat fuel → (0 < fuel)%nat →
  openCellRecursive fuel b row col ≠ OutOfFuel.
Proof.
  revert b row col. induction fuel as [|fuel IH]; intros b row col Hfuel Hpos; [lia|].
  simpl. destruct (_ || _) eqn:Hoob; [done|].
  apply orb_false_iff in Hoob as [[[Hr1 Hr2]%orb_false_iff Hc1]%orb_false_iff Hc2].
  apply bool_decide_eq_false in Hr1, Hr2, Hc1, Hc2.
  pose proof (cellProp_not_OutOfFuel isOpen b row col) as Ho.
  destruct (cellProp isOpen b row col) as [o| |]; simpl; [|done|done].
  assert ((if o then Returns true else cellProp isMine b row col) ≠ OutOfFuel) as Hm.
  { destruct o; [done|]. apply cellProp_not_OutOfFuel. }
  destruct (if o then _ else _) as [m| |]; simpl; [|done|done].
  destruct m; [done|].
  pose proof (assignCell_not_OutOfFuel setOpen b row col) as Hb1.
  destruct (assignCell setOpen b row col) as [b1| |] eqn:Hassign; simpl; [|done|done].
  pose proof (cellProp_not_OutOfFuel adjacentMines b1 row col) as Ha.
  destruct (cellProp adjacentMines b1 row col) as [a| |]; simpl; [|done|done].
  case_bool_decide; [|done].
  pose proof (getAdjacentCells_not_OutOfFuel b1 row col) as Hn.
  destruct (getAdjacentCells b1 row col) as [neighbors| |]; simpl; [|done|done].
  apply (forEachM_terminates (λ b2, cellProp isOpen b2 row col = Returns true)).
  { by eapply assignCell_setOpen_open. }
  intros index b2 _ Hopen. split.
  - destruct (truthy _).
    + apply IH; unfold BOARD_SIZE in *; lia.
    + rewrite !Z.add_0_r. destruct fuel; [unfold BOARD_SIZE in *; lia|].
      by rewrite openCellRecursive_open.
  - intros b3 Hb3. eapply revealed_stays_open; [|done].
    by eapply openCellRecursive_revealed.
Qed.

(** More fuel does not change a result. *)
Lemma openCellRecursive_fuel_mono (n m : nat) (b : Board) (row col : Z) :
  (n ≤ m)%nat →
  openCellRecursive n b row col ≠ OutOfFuel →
  openCellRecursive m b row col = openCellRecursive n b row col.
Proof.
  revert m b row col. induction n as [|n IH]; intros m b row col Hnm Hrun; [done|].
  destruct m as [|m]; [lia|]. simpl in *.
  destruct (_ || _); [done|].
  destruct (cellProp isOpen b row col) as [o| |]; simpl in *; [|done|done].
  destruct (if o then _ else _) as [mine| |]; simpl in *; [|done|done].
  destruct mine; [done|].
  destruct (assignCell setOpen b row col) as [b1| |]; simpl in *; [|done|done].
  destruct (cellProp adjacentMines b1 row col) as [a| |]; simpl in *; [|done|done].
  case_bool_decide; [|done].
  destruct (getAdjacentCells b1 row col) as [neighbors| |]; simpl in *; [|done|done].
  apply forEachM_ext_defined; [|done].
  intros index b2 Hne. apply IH; [lia|done].
Qed.

(** The fuel [openCell] needs: the target cell exists when the recursion
    starts, so its row is not negative. *)
Lemma openCell_terminates (fuel : nat) (st : State) (row col : Z) :
  (11 ≤ fuel)%nat → openCell fuel st row col ≠ OutOfFuel.
Proof.
  intros Hfuel. unfold openCell. destruct (_ || _); [done|].
  pose proof (cellProp_not_OutOfFuel isOpen (board st) row col) as Ho.
  destruct (cellProp isOpen (board st) row col) as [o| |] eqn:Hopen; simpl; [|done|done].
  apply cellProp_Returns in Hopen as (c & [Hrow _]%getCell_Some_nonneg & _).
  assert ((if o then Returns true else cellProp isFlagged (board st) row col) ≠ OutOfFuel)
    as Hf.
  { destruct o; [done|]. apply cellProp_not_OutOfFuel. }
  destruct (if o then _ else _) as [f| |]; simpl; [|done|done].
  destruct f; [done|].
  pose proof (openCellRecursive_terminates fuel (board st) row col) as Hrec.
  destruct (openCellRecursive fuel (board st) row col) as [b'| |]; simpl; [|done|].
  - pose proof (cellProp_not_OutOfFuel isMine b' row col) as Hm.
    destruct (cellProp isMine b' row col) as [m| |]; simpl; [|done|done].
    destruct m; [done|]. by destruct (checkWin b').
  - exfalso. apply Hrec; unfold BOARD_SIZE; (lia || done).
Qed.

Lemma openCell_fuel_mono (n m : nat) (st : State) (row col : Z) :
  (n ≤ m)%nat →
  openCell n st row col ≠ OutOfFuel →
  openCell m st row col = openCell n st row col.
Proof.
  intros Hnm. unfold openCell. destruct (_ || _); [done|].
  destruct (cellProp isOpen (board st) row col) as [o| |]; simpl; [|done|done].
  destruct (if o then _ else _) as [f| |]; simpl; [|done|done].
  destruct f; [done|].
  intros Hrun.
  rewrite (openCellRecursive_fuel_mono n m) by (done || by intros Heq; rewrite Heq in Hrun).
  done.
Qed.

(** A level of the recursion that goes on has opened a closed cell, and no
    cell is closed again: the recursion is never deeper than the number of
    closed cells. *)
Lemma openCellRecursive_terminates_closed (fuel : nat) (b : Board) (row col : Z) :
  (countCells isClosed b < fuel)%nat →
  openCellRecursive fuel b row col ≠ OutOfFuel.
Proof.
  revert b row col. induction fuel as [|fuel IH]; intros b row col Hfuel; [lia|].
  simpl. destruct (_ || _); [done|].
  pose proof (cellProp_not_OutOfFuel isOpen b row col) as Ho.
  destruct (cellProp isOpen b row col) as [o| |] eqn:Hopen; simpl; [|done|done].
  destruct o; simpl; [done|].
  pose proof (cellProp_not_OutOfFuel isMine b row col) as Hm.
  destruct (cellProp isMine b row col) as [m| |]; simpl; [|done|done].
  destruct m; [done|].
  apply cellProp_Returns in Hopen as (c & Hc & Hclosed).
  pose proof (assignCell_not_OutOfFuel setOpen b row col) as Hb1.
  destruct (assignCell setOpen b row col) as [b1| |] eqn:Hassign; simpl; [|done|done].
  pose proof (countCells_assignCell isClosed _ _ _ _ _ _ Hc Hassign) as Hcount.
  replace (isClosed c) with true in Hcount by (unfold isClosed; by rewrite Hclosed).
  change (isClosed (setOpen c)) with false in Hcount. simpl in Hcount.
  pose proof (cellProp_not_OutOfFuel adjacentMines b1 row col) as Ha.
  destruct (cellProp adjacentMines b1 row col) as [a| |]; simpl; [|done|done].
  case_bool_decide; [|done].
  pose proof (getAdjacentCells_not_OutOfFuel b1 row col) as Hn.
  destruct (getAdjacentCells b1 row col) as [neighbors| |]; simpl; [|done|done].
  apply (forEachM_terminates (λ b2, (countCells isClosed b2 ≤ countCells isClosed b1)%nat)).
  { done. }
  intros index b2 _ Hle. split.
  - apply IH. lia.
  - intros b3 Hb3%openCellRecursive_revealed.
    etrans; [|exact Hle]. eapply countCells_Forall2_le; [|exact Hb3].
    intros c2 c3 [->|(_ & _ & ->)]; [done|]. by unfold isClosed.
Qed.

(** The recursion goes on through cells without a mine around only: on a
    closed cell with a number, it opens the cell and returns. *)
Lemma openCellRecursive_numbered (fuel : nat) (b : Board) (row col : Z) (c : Cell) :
  inBounds row col = true →
  getCell b row col = Some c →
  isOpen c = false → isMine c = false → adjacentMines c ≠ 0 →
  openCellRecursive (S fuel) b row col = assignCell setOpen b row col.
Proof.
  intros Hin Hc Ho Hm Ha. simpl.
  unfold inBounds in Hin. repeat (apply andb_prop in Hin as [Hin ?]).
  repeat match goal with H : bool_decide _ = true |- _ => apply bool_decide_eq_true in H end.
  rewrite !bool_decide_eq_false_2 by lia. simpl.
  rewrite (proj2 (cellProp_Returns isOpen b row col false)) by eauto. simpl.
  rewrite (proj2 (cellProp_Returns isMine b row col false)) by eauto. simpl.
  destruct (assignCell setOpen b row col) as [b1| |] eqn:Hb1; simpl; [|done..].
  pose proof (getCell_assignCell _ _ _ _ _ row col Hb1) as Hget.
  rewrite decide_True, Hc in Hget by done.
  rewrite (proj2 (cellProp_Returns adjacentMines b1 row col (adjacentMines c)));
    [|by exists (setOpen c)].
  simpl. by rewrite bool_decide_eq_false_2.
Qed.

Example openCell_numbered :
  (st <- openCell 11 (newGame lastRowBoard) 8 3;;
   Returns (countCells isOpen (board st), outcome st)) = Returns (1%nat, InProgress).
Proof. vm_compute. reflexivity. Qed.

(** C8: a reveal terminates, for every state and coordinate.  The recursion
    of [openCellRecursive] ends within as many levels as the board has
    closed cells, plus one; for [openCell] 11 levels are enough, and more
    fuel gives the same result. *)
Theorem reveal_terminates :
  (∀ (b : Board) (row col : Z) (k : nat),
     terminated (openCellRecursive (S (countCells isClosed b) + k) b row col) ∧
     openCellRecursive (S (countCells isClosed b) + k) b row col =
     openCellRecursive (S (countCells isClosed b)) b row col) ∧
  (∀ (st : State) (row col : Z) (k : nat),
     terminated (openCell (11 + k) st row col) ∧
     openCell (11 + k) st row col = openCell 11 st row col).
Proof.
  split.
  - intros b row col k.
    pose proof (openCellRecursive_terminates_closed
                  (S (countCells isClosed b)) b row col) as Hn.
    rewrite (openCellRecursive_fuel_mono (S (countCells isClosed b))) by (lia || (apply Hn; lia)).
    split; [|done].
    destruct (openCellRecursive _ b row col); [done..|]. exfalso. apply Hn; [lia|done].
  - intros st row col k.
    pose proof (openCell_terminates 11 st row col) as Hn.
    rewrite (openCell_fuel_mono 11) by (lia || (apply Hn; lia)).
    split; [|done].
    destruct (openCell _ st row col); [done..|]. exfalso. apply Hn; [lia|done].
Qed.

(** ** Determinism of a reveal *)

(** The result of a reveal depends on the board and on the two flags of a
    finished game only. *)
Lemma openCell_sameResult (fuel : nat) (st1 st2 : State) (row col : Z) :
  board st1 = board st2 →
  isGameOver st1 = isGameOver st2 → isGameWon st1 = isGameWon st2 →
  openCell fuel st1 row col ≠ OutOfFuel →
  sameResult (openCell fuel st1 row col) (openCell fuel st2 row col).
Proof.
  intros Hb Hover Hwon. unfold openCell. rewrite <- Hb, <- Hover, <- Hwon.
  destruct (_ || _).
  { intros _. simpl. split; [done|]. unfold outcome. by rewrite Hover, Hwon. }
  destruct (cellProp isOpen (board st1) row col) as [o| |]; simpl; [|done|done].
  destruct (if o then _ else _) as [f| |]; simpl; [|done|done].
  destruct f.
  { intros _. simpl. split; [done|]. unfold outcome. by rewrite Hover, Hwon. }
  destruct (openCellRecursive fuel (board st1) row col) as [b'| |]; simpl; [|done|done].
  destruct (cellProp isMine b' row col) as [m| |]; simpl; [|done|done].
  destruct m; [done|]. destruct (checkWin b'); [done|].
  intros _. simpl. split; [done|]. unfold outcome. simpl. by rewrite Hover, Hwon.
Qed.

(** C10: a reveal uses no randomness.  Two runs from states of a game in
    progress that hold the same board, at the same coordinate, both throw or
    both return, and then they return the same board and the same outcome;
    neither the timer nor the amount of fuel changes the result. *)
Theorem reveal_deterministic (st1 st2 : State) (row col : Z) (k1 k2 : nat) :
  board st1 = board st2 →
  outcome st1 = InProgress → outcome st2 = InProgress →
  sameResult (openCell (11 + k1) st1 row col) (openCell (11 + k2) st2 row col).
Proof.
  intros Hb [Ho1 Hw1]%outcome_InProgress [Ho2 Hw2]%outcome_InProgress.
  rewrite (openCell_fuel_mono 11 (11 + k1)), (openCell_fuel_mono 11 (11 + k2));
    try lia; try (by apply openCell_terminates).
  apply openCell_sameResult; [done|congruence|congruence|].
  by apply openCell_terminates.
Qed.

Lemma reveal_deterministic_witness :
  sameResult
    (openCell 11 (newGame lastRowBoard) 0 0)
    (openCell 12 (mkState lastRowBoard false false false 42 true) 0 0).
Proof.
  apply (reveal_deterministic (newGame lastRowBoard)
           (mkState lastRowBoard false false false 42 true) 0 0 0 1);
    reflexivity.
Defined.

(** ** Reveals that change nothing *)

(** C4: on a cell of the board that is already open or flagged, or when the
    game is won or lost, a reveal returns the state it was given: the board
    and the outcome are unchanged. *)
Theorem reveal_noop (fuel : nat) (st : State) (row col : Z) (cell : Cell) :
  getCell (board st) row col = Some cell →
  isOpen cell = true ∨ isFlagged cell = true ∨ outcome st = Win ∨ outcome st = Loss →
  openCell fuel st row col = Returns st.
Proof.
  intros Hcell Hcase. unfold openCell.
  destruct (isGameOver st || isGameWon st) eqn:Hend; [done|].
  apply orb_false_iff in Hend as [Hover Hwon].
  assert (cellProp isOpen (board st) row col = Returns (isOpen cell)) as ->.
  { apply cellProp_Returns. eauto. }
  simpl. destruct (isOpen cell) eqn:Ho; simpl; [done|].
  assert (cellProp isFlagged (board st) row col = Returns (isFlagged cell)) as ->.
  { apply cellProp_Returns. eauto. }
  simpl. destruct (isFlagged cell) eqn:Hf; simpl; [done|].
  unfold outcome in Hcase. rewrite Hover, Hwon in Hcase. naive_solver.
Qed.

Lemma reveal_noop_witness :
  getCell (board afterCorner) 0 0 = Some (mkCell false true false 0) ∧
  openCell 11 afterCorner 0 0 = Returns afterCorner.
Proof.
  split; [vm_compute; reflexivity|].
  apply (reveal_noop 11 afterCorner 0 0 (mkCell false true false 0)).
  - vm_compute. reflexivity.
  - left. reflexivity.
Defined.

(** After the game has ended a press does nothing, at any coordinate. *)
Lemma reveal_finished (fuel : nat) (st : State) (row col : Z) :
  outcome st ≠ InProgress → openCell fuel st row col = Returns st.
Proof.
  intros Hend. unfold openCell.
  destruct (isGameOver st || isGameWon st) eqn:Hor; [done|].
  apply orb_false_iff in Hor. by apply outcome_InProgress in Hor.
Qed.

(** ** Winning *)

Lemma checkWin_spec (b : Board) :
  checkWin b = true ↔ countCells safeClosed b = 0%nat.
Proof.
  rewrite countCells_zero. unfold checkWin.
  induction b as [|r b IH]; simpl.
  - split; [constructor|done].
  - rewrite andb_true_iff, Forall_cons, IH. apply and_iff_compat_r.
    clear IH. induction r as [|c r IH]; simpl.
    + split; [constructor|done].
    + rewrite andb_true_iff, Forall_cons, IH. apply and_iff_compat_r.
      unfold safeClosed. by destruct (negb (isMine c) && negb (isOpen c)).
Qed.

Example checkWin_lastRowBoard : checkWin lastRowBoard = false.
Proof. reflexivity. Qed.

Example checkWin_won : checkWin (board won) = true.
Proof. vm_compute. reflexivity. Qed.

Lemma reachable_play (fuel : nat) (clicks : list (Z * Z)) (st st' : State) :
  reachable st → play fuel clicks st = Returns st' → reachable st'.
Proof.
  unfold play. revert st. induction clicks as [|p clicks IH]; simpl; intros st Hst Hrun.
  - by simplify_eq.
  - inv_bind Hrun as st1 Hst1.
    eapply IH; [|done]. by eapply reach_open.
Qed.

(** What holds of every state of a game: no mine is open, and the game is
    marked as won only when [checkWin] holds of the board. *)
Lemma reachable_invariant (st : State) :
  reachable st →
  countCells openMine (board st) = 0%nat ∧
  (isGameWon st = true → checkWin (board st) = true).
Proof.
  induction 1 as [rand b Hb|st st' fuel row col _ [IHmine IHwon] Hrun|st _ IH].
  - split; [|done]. simpl.
    apply createBoard_closed in Hb as Hopen.
    apply countCells_zero in Hopen. apply countCells_zero.
    eapply Forall_impl; [done|]. intros r Hr. eapply Forall_impl; [done|].
    intros c Hc. unfold openMine. rewrite Hc. apply andb_false_r.
  - split.
    + pose proof (openCell_revealed _ _ _ _ _ Hrun) as Hrev.
      apply Nat.le_0_r. rewrite <- IHmine.
      eapply countCells_Forall2_le; [|exact Hrev].
      intros c c' [->|(Hm & _ & ->)]; [done|]. unfold openMine. simpl. by rewrite Hm.
    + revert Hrun. unfold openCell.
      destruct (isGameOver st || isGameWon st) eqn:Hend; [by intros; simplify_eq; auto|].
      apply orb_false_iff in Hend as [_ Hwon].
      intros (o & Ho & Hrun)%bind_Returns.
      inv_bind Hrun as f Hf.
      destruct f; [by simplify_eq; auto|].
      inv_bind Hrun as b' Hb'.
      inv_bind Hrun as m Hm.
      destruct m; [simplify_eq/=; congruence|].
      destruct (checkWin b') eqn:Hwin; simplify_eq/=; [done|congruence].
  - unfold tick. by destruct (isTimerActive st).
Qed.

Lemma reachable_square (st : State) : reachable st → square (board st).
Proof.
  induction 1 as [rand b Hb|st st' fuel row col _ IH Hrun|st _ IH].
  - by eapply createBoard_shape.
  - eapply square_Forall2; [|exact IH]. by eapply openCell_revealed.
  - unfold tick. by destruct (isTimerActive st).
Qed.

(** C6: [checkWin] holds of a board exactly when no cell satisfies
    [!isMine && !isOpen]; and when a reveal in a game returns a won state,
    the board it returns has every cell without a mine open and no mine
    open. *)
Theorem win_correct :
  (∀ b : Board, checkWin b = true ↔ countCells safeClosed b = 0%nat) ∧
  (∀ (st st' : State) (fuel : nat) (row col : Z),
     reachable st →
     openCell fuel st row col = Returns st' →
     outcome st' = Win →
     countCells safeClosed (board st') = 0%nat ∧
     countCells openMine (board st') = 0%nat).
Proof.
  split; [apply checkWin_spec|].
  intros st st' fuel row col Hst Hrun Hwin.
  destruct (reachable_invariant st') as [Hmine Hwon]; [by eapply reach_open|].
  split; [|done]. apply checkWin_spec, Hwon.
  unfold outcome in Hwin. destruct (isGameWon st'); [done|]. by destruct (isGameOver st').
Qed.

Lemma win_correct_witness :
  reachable almostWon ∧
  openCell 11 almostWon 8 0 = Returns won ∧
  outcome won = Win ∧
  countCells safeClosed (board won) = 0%nat ∧
  countCells openMine (board won) = 0%nat.
Proof.
  assert (reachable almostWon) as Hreach.
  { apply (reachable_play 11 (take 80 gridCoords) (newGame lastRowBoard)).
    - apply (reach_new lastRowSamples). vm_compute. reflexivity.
    - vm_compute. reflexivity. }
  split; [exact Hreach|].
  split; [vm_compute; reflexivity|].
  split; [vm_compute; reflexivity|].
  apply (proj2 win_correct almostWon won 11%nat 8 0 Hreach); vm_compute; reflexivity.
Defined.

(** ** The time format *)

Lemma string_app_assoc (s1 s2 s3 : string) :
  (s1 +:+ s2) +:+ s3 = s1 +:+ (s2 +:+ s3).
Proof.
  induction s1 as [|a s1 IH]; [done|].
  change (String a ((s1 +:+ s2) +:+ s3) = String a (s1 +:+ (s2 +:+ s3))).
  by rewrite IH.
Qed.

Lemma pretty_N_go_app (x : N) (s : string) :
  pretty_N_go x s = pretty_N_go x "" +:+ s.
Proof.
  revert s. induction (N.lt_wf_0 x) as [x _ IH]; intros s.
  destruct (decide (x = 0)%N) as [->|Hx]; [done|].
  rewrite !(pretty_N_go_step x) by lia.
  assert (x `div` 10 < x)%N as Hlt by (apply N.div_lt; lia).
  rewrite (IH _ Hlt (String _ s)), (IH _ Hlt (String _ "")).
  by rewrite string_app_assoc.
Qed.

Lemma pretty_N_char_digitChar (d : N) :
  (d < 10)%N → pretty_N_char d = digitChar (Z.of_N d).
Proof.
  intros Hd.
  assert (d = 0 ∨ d = 1 ∨ d = 2 ∨ d = 3 ∨ d = 4 ∨ d = 5 ∨ d = 6 ∨ d = 7 ∨ d = 8 ∨ d = 9)%N
    as Hcases by lia.
  destruct_or!; subst; reflexivity.
Qed.

(** [numberToString] writes a natural number in decimal notation, without
    padding: one digit below 10, and above the notation of the tenth followed
    by the last digit. *)
Lemma numberToString_digit (n : Z) :
  0 ≤ n < 10 → numberToString n = String (digitChar n) "".
Proof.
  intros Hn. assert (n ∈ seqZ 0 10) as Hin by (apply elem_of_seqZ; lia).
  clear Hn. revert n Hin. apply Forall_forall.
  by apply (bool_decide_unpack _); vm_compute.
Qed.

Lemma numberToString_step (n : Z) :
  10 ≤ n →
  numberToString n = numberToString (n `div` 10) +:+ String (digitChar (n `mod` 10)) "".
Proof.
  intros Hn. destruct n as [|p|p]; [lia| |lia].
  assert (0 < Z.pos p `div` 10) as Hdiv by (apply Z.div_str_pos; lia).
  destruct (Z.pos p `div` 10) as [|q|q] eqn:Hq; [lia| |lia].
  change (pretty_N_go (N.pos p) "" =
          pretty_N_go (N.pos q) "" +:+ String (digitChar (Z.pos p `mod` 10)) "").
  rewrite pretty_N_go_step by lia. rewrite pretty_N_go_app.
  assert ((N.pos p `div` 10)%N = N.pos q) as ->.
  { apply N2Z.inj. rewrite N2Z.inj_div. simpl. exact Hq. }
  f_equal. f_equal.
  change (Z.pos p `mod` 10) with (Z.of_N (N.pos p) `mod` Z.of_N 10).
  rewrite <- N2Z.inj_mod.
  apply pretty_N_char_digitChar. by apply N.mod_lt.
Qed.

Lemma numberToString_decimal (n : Z) : 0 ≤ n → numberToString n = decimal n.
Proof.
  unfold decimal. generalize (S (Z.to_nat n)) (Nat.lt_succ_diag_r (Z.to_nat n)).
  intros fuel. revert n. induction fuel as [|fuel IH]; intros n Hfuel Hn; [lia|].
  simpl. case_bool_decide.
  - by apply numberToString_digit.
  - rewrite numberToString_step by lia. f_equal.
    assert (n `div` 10 < n) by (apply Z.div_lt; lia).
    apply IH; [lia|]. apply Z.div_pos; lia.
Qed.

Example decimal_125 : decimal 125 = "125".
Proof. vm_compute. reflexivity. Qed.

Lemma seconds_twoDigits (k : Z) :
  0 ≤ k < 60 →
  (if bool_decide (k < 10) then "0" else "") +:+ numberToString k = twoDigits k.
Proof.
  intros Hk. assert (k ∈ seqZ 0 60) as Hin by (apply elem_of_seqZ; lia).
  clear Hk. revert k Hin. apply Forall_forall.
  by apply (bool_decide_unpack _); vm_compute.
Qed.

Example formatTime_hour : formatTime 3600 = "60:00".
Proof. vm_compute. reflexivity. Qed.

(** C9: for a whole number of seconds [s] from 0 to [MAX_SAFE_INTEGER],
    [formatTime] returns the decimal notation of [s div 60] without padding,
    a colon, and [s mod 60] with two digits; in particular 0 gives "0:00",
    59 gives "0:59", 60 gives "1:00" and 125 gives "2:05". *)
Theorem formatTime_correct :
  (∀ s : Z, 0 ≤ s ≤ MAX_SAFE_INTEGER →
     formatTime s = minutesSeconds s ∧
     String.length (twoDigits (s `mod` 60)) = 2%nat) ∧
  formatTime 0 = "0:00" ∧ formatTime 59 = "0:59" ∧
  formatTime 60 = "1:00" ∧ formatTime 125 = "2:05".
Proof.
  split; [|by vm_compute].
  intros s Hs. split; [|done].
  unfold formatTime, minutesSeconds. rewrite Z.rem_mod_nonneg by lia.
  rewrite numberToString_decimal by (apply Z.div_pos; lia). do 2 f_equal.
  apply seconds_twoDigits. apply Z.mod_pos_bound. lia.
Qed.

Lemma formatTime_correct_witness :
  0 ≤ 3725 ≤ MAX_SAFE_INTEGER ∧
  formatTime 3725 = "62:05" ∧ minutesSeconds 3725 = "62:05".
Proof.
  assert (0 ≤ 3725 ≤ MAX_SAFE_INTEGER) as Hs by (by vm_compute).
  split; [exact Hs|].
  destruct (proj1 formatTime_correct 3725 Hs) as [Heq _].
  split; [vm_compute; reflexivity|].
  rewrite <- Heq. vm_compute. reflexivity.
Defined.

(** ** Where the flood fill goes *)

Global Instance changesOnly_preorder (Q : Z * Z → Prop) : PreOrder (changesOnly Q).
Proof.
  split.
  - by intros b row col.
  - intros b1 b2 b3 H12 H23 row col Hne.
    destruct (decide (getCell b2 row col = getCell b1 row col)) as [Heq|]; [|by apply H12].
    apply H23. by rewrite Heq.
Qed.

(** Every recursive call is made at [(row + 1, col + 1)], or at [(row, col)]
    again: a reveal changes cells down the diagonal of its target only. *)
Lemma openCellRecursive_diagonal (fuel : nat) (b b' : Board) (row col : Z) :
  openCellRecursive fuel b row col = Returns b' →
  changesOnly (downDiagonal row col) b b'.
Proof.
  revert b b' row col. induction fuel as [|fuel IH]; intros b b' row col; simpl; [done|].
  destruct (_ || _); [intros; simplify_eq; reflexivity|].
  intros (o & Ho & Hrun)%bind_Returns.
  inv_bind Hrun as m Hm.
  destruct m; [simplify_eq; reflexivity|].
  inv_bind Hrun as b1 Hb1.
  inv_bind Hrun as a Ha.
  trans b1.
  { intros r c Hne. rewrite (getCell_assignCell _ _ _ _ _ r c Hb1) in Hne.
    case_decide as Heq; [|done]. destruct Heq as [-> ->]. unfold downDiagonal. simpl. lia. }
  case_bool_decide; [|simplify_eq; reflexivity].
  inv_bind Hrun as neighbors Hn.
  eapply (forEachM_invariant (changesOnly (downDiagonal row col))); [|done].
  intros index b2 b3 _ Hcall%IH r c Hne. specialize (Hcall r c Hne).
  unfold downDiagonal in *. simpl in *. destruct (truthy _); lia.
Qed.

(** C1 (the code fails the claim): on [lastRowBoard] the cell (0,0) has no
    mine around, and so has its neighbour (0,1).  A reveal at (0,0) leaves
    (0,1) closed: it opens the 9 cells (0,0), (1,1), ..., (8,8), out of the
    80 cells without a mine around that are connected to (0,0). *)
Theorem reveal_misses_neighbour :
  openCell 11 (newGame lastRowBoard) 0 0 = Returns afterCorner ∧
  getCell lastRowBoard 0 0 = Some (mkCell false false false 0) ∧
  getCell lastRowBoard 0 1 = Some (mkCell false false false 0) ∧
  (0, 1) ∈ neighbours 0 0 ∧
  getCell (board afterCorner) 0 1 = Some (mkCell false false false 0) ∧
  countCells isOpen (board afterCorner) = 9%nat ∧
  countCells (λ c, negb (isMine c) && bool_decide (adjacentMines c = 0)) lastRowBoard
    = 80%nat.
Proof. vm_compute. repeat split. left. Qed.

(** ** A press on a mine *)

(** A press on a mine ends the game and leaves the mine closed: the
    recursion returns before it opens the cell. *)
Lemma reveal_mine (fuel : nat) (st : State) (row col : Z) (cell : Cell) :
  getCell (board st) row col = Some cell →
  isMine cell = true → isOpen cell = false → isFlagged cell = false →
  outcome st = InProgress →
  openCell (S fuel) st row col =
  Returns {| board := board st; isGameOver := true; isGameWon := false;
             showAllMines := true; timer := timer st; isTimerActive := false |}.
Proof.
  intros Hcell Hm Ho Hf [Hover Hwon]%outcome_InProgress.
  assert (openCellRecursive (S fuel) (board st) row col = Returns (board st)) as Hrec.
  { simpl. destruct (_ || _); [done|].
    rewrite (proj2 (cellProp_Returns isOpen (board st) row col false)) by eauto. simpl.
    by rewrite (proj2 (cellProp_Returns isMine (board st) row col true)) by eauto. }
  unfold openCell. rewrite Hover, Hwon. cbn [orb].
  rewrite (proj2 (cellProp_Returns isOpen (board st) row col false)) by eauto. cbn [bind].
  rewrite (proj2 (cellProp_Returns isFlagged (board st) row col false)) by eauto. cbn [bind].
  rewrite Hrec. cbn [bind].
  by rewrite (proj2 (cellProp_Returns isMine (board st) row col true)) by eauto.
Qed.

(** C2 (the code fails the claim): on [lastRowBoard] the cell (9,0) is a
    mine, closed and without a flag.  A reveal there returns the outcome
    [Loss] and the board it was given: the mine is still closed. *)
Theorem reveal_mine_not_opened :
  getCell lastRowBoard 9 0 = Some (mkCell true false false 0) ∧
  openCell 11 (newGame lastRowBoard) 9 0 = Returns afterMine ∧
  outcome afterMine = Loss ∧
  board afterMine = lastRowBoard ∧
  getCell (board afterMine) 9 0 = Some (mkCell true false false 0).
Proof. vm_compute. repeat split. Qed.

(** ** A press outside the board *)









(** * Further properties of the code *)

(** ** Helpers *)

Lemma Forall_getCell (P : Cell → Prop) (b : Board) (row col : Z) (c : Cell) :
  Forall (Forall P) b → getCell b row col = Some c → P c.
Proof.
  unfold getCell. intros Hb Hc.
  destruct (at_index b row) as [r|] eqn:Hr; [|done].
  apply at_index_Some in Hr as [_ Hr], Hc as [_ Hc].
  rewrite Forall_forall in Hb. specialize (Hb r (list_elem_of_lookup_2 _ _ _ Hr)).
  rewrite Forall_forall in Hb. apply Hb. by eapply list_elem_of_lookup_2.
Qed.

Lemma countCells_ext (P Q : Cell → bool) (b : Board) :
  Forall (Forall (λ c, P c = Q c)) b → countCells P b = countCells Q b.
Proof.
  unfold countCells. induction 1 as [|r b Hr _ IH]; [done|].
  simpl. rewrite !filter_app, !length_app, IH. f_equal.
  clear IH. induction Hr as [|c r Hc _ IH]; [done|].
  rewrite !filter_cons, Hc. case_decide; simpl; by rewrite IH.
Qed.

Lemma countCells_split (P : Cell → bool) (b : Board) :
  (countCells P b + countCells (λ c, negb (P c)) b = length (concat b))%nat.
Proof.
  unfold countCells. induction (concat b) as [|c l IH]; [done|].
  rewrite !filter_cons. destruct (P c); simpl; repeat case_decide; simpl; try done; lia.
Qed.

Lemma square_cells (b : Board) : square b → length (concat b) = 100%nat.
Proof.
  intros [Hlen Hrows].
  assert (length (concat b) = (length b * 10)%nat) as ->; [|rewrite Hlen; reflexivity].
  clear Hlen. induction Hrows as [|r b Hr _ IH]; [done|].
  simpl. rewrite length_app, IH, Hr. reflexivity.
Qed.

(** On a mine the recursion returns the board it was given. *)
Lemma openCellRecursive_mine (fuel : nat) (b b' : Board) (row col : Z) :
  cellProp isMine b row col = Returns true →
  openCellRecursive fuel b row col = Returns b' → b' = b.
Proof.
  intros Hm. destruct fuel as [|fuel]; simpl; [done|].
  destruct (_ || _); [by intros; simplify_eq|].
  destruct (cellProp isOpen b row col) as [[]| |]; simpl; try done.
  - by intros; simplify_eq.
  - rewrite Hm. simpl. by intros; simplify_eq.
Qed.

(** A reveal keeps every field of a cell but [isOpen]. *)
Lemma revealed_cellProp {B : Type} (f : Cell → B) (b b' : Board) (row col : Z) (x : B) :
  (∀ c, f (setOpen c) = f c) →
  revealed b b' →
  cellProp f b' row col = Returns x → cellProp f b row col = Returns x.
Proof.
  intros Hf Hb (c' & Hc' & <-)%cellProp_Returns.
  destruct (getCell b row col) as [c|] eqn:Hc.
  - destruct (Forall2_getCell _ _ _ _ _ _ Hb Hc) as (c2 & Hc2 & Hcc).
    apply cellProp_Returns. exists c. split; [done|].
    assert (c2 = c') as -> by congruence.
    by destruct Hcc as [->|(_ & _ & ->)].
  - apply (Forall2_getCell_None _ _ _ _ _ Hb) in Hc. congruence.
Qed.

(** After the recursion the target is open, unless it holds a mine. *)
Lemma openCellRecursive_target_open (fuel : nat) (b b' : Board) (row col : Z) :
  inBounds row col = true →
  openCellRecursive fuel b row col = Returns b' →
  cellProp isMine b' row col = Returns false →
  cellProp isOpen b' row col = Returns true.
Proof.
  intros Hin Hrun Hsafe.
  pose proof (openCellRecursive_revealed _ _ _ _ _ Hrun) as Hrev.
  apply (revealed_cellProp isMine _ _ _ _ _ (λ _, eq_refl) Hrev) in Hsafe.
  destruct fuel as [|fuel]; simpl in Hrun; [done|].
  unfold inBounds in Hin. repeat (apply andb_prop in Hin as [Hin ?]).
  repeat match goal with H : bool_decide _ = true |- _ => apply bool_decide_eq_true in H end.
  rewrite !bool_decide_eq_false_2 in Hrun by lia. simpl in Hrun.
  inv_bind Hrun as o Ho. destruct o; simpl in Hrun.
  { by simplify_eq. }
  rewrite Hsafe in Hrun. simpl in Hrun.
  inv_bind Hrun as b1 Hb1. inv_bind Hrun as a Ha.
  apply assignCell_setOpen_open in Hb1.
  eapply revealed_stays_open; [|exact Hb1].
  case_bool_decide; [|simplify_eq; reflexivity].
  inv_bind Hrun as neighbors Hn.
  eapply (forEachM_invariant revealed); [|done].
  intros index b2 b3 _. apply openCellRecursive_revealed.
Qed.

(** ** The states of the examples are states of a game *)

Lemma reachable_start : reachable (newGame lastRowBoard).
Proof. apply (reach_new lastRowSamples). vm_compute. reflexivity. Qed.

Lemma reachable_afterCorner : reachable afterCorner.
Proof.
  apply (reach_open (newGame lastRowBoard) _ 11 0 0); [apply reachable_start|].
  vm_compute. reflexivity.
Qed.

Lemma reachable_afterMine : reachable afterMine.
Proof.
  apply (reach_open (newGame lastRowBoard) _ 11 9 0); [apply reachable_start|].
  vm_compute. reflexivity.
Qed.

Lemma reachable_almostWon : reachable almostWon.
Proof.
  apply (reachable_play 11 (take 80 gridCoords) (newGame lastRowBoard));
    [apply reachable_start|].
  vm_compute. reflexivity.
Qed.

Lemma reachable_won : reachable won.
Proof.
  apply (reach_open almostWon _ 11 8 0); [apply reachable_almostWon|].
  vm_compute. reflexivity.
Qed.

(** ** What generation gives, piece by piece *)

Lemma createBoard_mineCount (rand : list Z) (b : Board) :
  createBoard rand = Returns b → Z.of_nat (countCells isMine b) = MINES_COUNT.
Proof.
  unfold createBoard. intros (b1 & Hb1 & Hb)%bind_Returns.
  pose proof (placeMines_count _ _ _ _ Hb1 eq_refl) as Hcount.
  apply countAll_Returns in Hb as [Hlayout _].
  rewrite (countCells_Forall2_eq sameLayout isMine b1 b); [|by intros c c' (? & _)|done].
  apply Hcount. unfold MINES_COUNT. lia.
Qed.

Lemma createBoard_adjacentOK (rand : list Z) (b : Board) (p : Z * Z) :
  createBoard rand = Returns b → adjacentOK b p.
Proof.
  intros Hrun. pose proof (createBoard_shape _ _ Hrun) as Hsq.
  revert Hrun. unfold createBoard. intros (b1 & Hb1 & Hb)%bind_Returns.
  apply countAll_Returns in Hb as [_ Hadj].
  destruct (inBounds p.1 p.2) eqn:Hin.
  - apply Hadj. destruct p as [row col]. simpl in Hin. unfold gridCoords.
    unfold inBounds in Hin. repeat (apply andb_prop in Hin as [Hin ?]).
    repeat match goal with H : bool_decide _ = true |- _ => apply bool_decide_eq_true in H end.
    apply list_elem_of_bind. exists row. rewrite elem_of_seqZ. split; [|lia].
    apply list_elem_of_fmap. exists col. rewrite elem_of_seqZ. split; [done|lia].
  - intros cell Hcell. by rewrite (getCell_outside b _ _ Hsq Hin) in Hcell.
Qed.

Lemma createBoard_unflagged (rand : list Z) (b : Board) :
  createBoard rand = Returns b → countCells isFlagged b = 0%nat.
Proof.
  intros Hb%createBoard_marks.
  by rewrite (countCells_Forall2_eq sameMarks isFlagged blankBoard b);
    [|intros c c' (_ & ?)|].
Qed.

(** A new board has 100 cells, of which the 90 without a mine are closed. *)
Lemma createBoard_safeClosed (rand : list Z) (b : Board) :
  createBoard rand = Returns b → countCells safeClosed b = 90%nat.
Proof.
  intros Hrun.
  pose proof (createBoard_mineCount _ _ Hrun) as Hmines.
  pose proof (createBoard_closed _ _ Hrun) as Hclosed.
  pose proof (square_cells _ (createBoard_shape _ _ Hrun)) as Hcells.
  pose proof (countCells_split isMine b) as Hsplit.
  rewrite (countCells_ext safeClosed (λ c, negb (isMine c))).
  - unfold MINES_COUNT in Hmines. lia.
  - apply countCells_zero in Hclosed. eapply Forall_impl; [done|].
    intros r Hr. eapply Forall_impl; [done|]. intros c Hc.
    unfold safeClosed. rewrite Hc. apply andb_true_r.
Qed.

(** ** What holds of every state of a game *)

Lemma opened_unflagged (b b' : Board) :
  revealed b b' → countCells isFlagged b = 0%nat → countCells isFlagged b' = 0%nat.
Proof.
  intros Hrev Hb. apply Nat.le_0_r. rewrite <- Hb.
  eapply countCells_Forall2_le; [|exact Hrev].
  by intros c c' [->|(_ & _ & ->)].
Qed.

Lemma neighbourMines_revealed (b b' : Board) (row col : Z) :
  revealed b b' → neighbourMines b' row col = neighbourMines b row col.
Proof.
  intros Hb. unfold neighbourMines. do 2 f_equal.
  apply list_filter_iff. intros p. unfold mineAt.
  destruct (getCell b p.1 p.2) as [c|] eqn:Hc.
  - destruct (Forall2_getCell _ _ _ _ _ _ Hb Hc) as (c' & -> & Hcc).
    by destruct Hcc as [->|(_ & _ & ->)].
  - by rewrite (Forall2_getCell_None _ _ _ _ _ Hb Hc).
Qed.

Lemma adjacentOK_revealed (b b' : Board) (p : Z * Z) :
  revealed b b' → adjacentOK b p → adjacentOK b' p.
Proof.
  intros Hb Hp cell' Hcell' Hsafe.
  rewrite (neighbourMines_revealed b b') by done.
  destruct (getCell b p.1 p.2) as [c|] eqn:Hc.
  - destruct (Forall2_getCell _ _ _ _ _ _ Hb Hc) as (c2 & Hc2 & Hcc).
    assert (c2 = cell') as -> by congruence.
    destruct Hcc as [->|(_ & _ & ->)]; [by apply Hp|].
    simpl in *. by apply Hp.
  - apply (Forall2_getCell_None _ _ _ _ _ Hb) in Hc. congruence.
Qed.

Lemma reachable_unflagged (st : State) :
  reachable st → countCells isFlagged (board st) = 0%nat.
Proof.
  induction 1 as [rand b Hb|st st' fuel row col _ IH Hrun|st _ IH].
  - by eapply createBoard_unflagged.
  - eapply opened_unflagged; [|exact IH]. by eapply openCell_revealed.
  - unfold tick. by destruct (isTimerActive st).
Qed.

Lemma reachable_flags (st : State) :
  reachable st →
  (isTimerActive st = true ↔ outcome st = InProgress) ∧
  showAllMines st = isGameOver st ∧
  ¬ (isGameOver st = true ∧ isGameWon st = true).
Proof.
  induction 1 as [rand b Hb|st st' fuel row col _ IH Hrun|st _ IH].
  - simpl. split; [|split]; [done|done|naive_solver].
  - revert Hrun. unfold openCell.
    destruct (isGameOver st || isGameWon st) eqn:Hend; [by intros; simplify_eq|].
    apply orb_false_iff in Hend as [Hover Hwon].
    intros (o & Ho & Hrun)%bind_Returns. inv_bind Hrun as f Hf.
    destruct f; [by simplify_eq|].
    inv_bind Hrun as b' Hb'. inv_bind Hrun as m Hm.
    destruct IH as (Htimer & Hshow & _).
    assert (outcome st = InProgress) as Hplay by (by apply outcome_InProgress).
    destruct m; [|destruct (checkWin b')]; simplify_eq/=; unfold outcome; simpl;
      rewrite ?Hover, ?Hwon.
    + split; [|split]; naive_solver.
    + split; [|split]; naive_solver.
    + split; [|split]; [by rewrite Htimer, Hplay|congruence|naive_solver].
  - unfold tick. destruct (isTimerActive st) eqn:Hactive;
      unfold outcome in *; simpl; rewrite ?Hactive; exact IH.
Qed.

(** X1: in every state of a game the timer is active exactly while the game
    is in progress, all the mines are shown exactly after a loss, and the
    game is never both lost and won. *)
Theorem flags_consistent (st : State) :
  reachable st →
  (isTimerActive st = true ↔ outcome st = InProgress) ∧
  (showAllMines st = true ↔ outcome st = Loss) ∧
  ¬ (isGameOver st = true ∧ isGameWon st = true).
Proof.
  intros (Htimer & Hshow & Hnot)%reachable_flags. split; [|split]; [done| |done].
  rewrite Hshow. unfold outcome.
  destruct (isGameOver st) eqn:Hover, (isGameWon st) eqn:Hwon; try done.
  by destruct Hnot.
Qed.

Lemma flags_consistent_witness :
  reachable afterMine ∧
  (isTimerActive afterMine = true ↔ outcome afterMine = InProgress) ∧
  (showAllMines afterMine = true ↔ outcome afterMine = Loss) ∧
  ¬ (isGameOver afterMine = true ∧ isGameWon afterMine = true).
Proof.
  split; [apply reachable_afterMine|].
  apply (flags_consistent afterMine). apply reachable_afterMine.
Defined.

(** X2: the flag of a won game is the win check of the board: in every
    state of a game [isGameWon] holds exactly when [checkWin] holds of the
    board, so a new game is never won and a lost game is never winning. *)
Theorem won_iff_checkWin (st : State) :
  reachable st → isGameWon st = checkWin (board st).
Proof.
  induction 1 as [rand b Hb|st st' fuel row col _ IH Hrun|st _ IH].
  - simpl. symmetry. apply not_true_is_false. intros Hwin%checkWin_spec.
    apply createBoard_safeClosed in Hb. lia.
  - revert Hrun. unfold openCell.
    destruct (isGameOver st || isGameWon st) eqn:Hend; [by intros; simplify_eq|].
    apply orb_false_iff in Hend as [Hover Hwon].
    intros (o & Ho & Hrun)%bind_Returns. inv_bind Hrun as f Hf.
    destruct f; [by simplify_eq|].
    inv_bind Hrun as b' Hb'. inv_bind Hrun as m Hm.
    destruct m.
    + pose proof (openCellRecursive_revealed _ _ _ _ _ Hb') as Hrev.
      apply (revealed_cellProp isMine _ _ _ _ _ (λ _, eq_refl) Hrev) in Hm.
      apply (openCellRecursive_mine _ _ _ _ _ Hm) in Hb'. simplify_eq/=. congruence.
    + destruct (checkWin b') eqn:Hwin; simplify_eq/=; congruence.
  - unfold tick. by destruct (isTimerActive st).
Qed.

Lemma won_iff_checkWin_witness :
  reachable won ∧ isGameWon won = checkWin (board won).
Proof.
  split; [apply reachable_won|].
  apply (won_iff_checkWin won). apply reachable_won.
Defined.

Lemma reachable_layout (st : State) :
  reachable st →
  Z.of_nat (countCells isMine (board st)) = MINES_COUNT ∧
  ∀ p, adjacentOK (board st) p.
Proof.
  induction 1 as [rand b Hb|st st' fuel row col _ [IHm IHa] Hrun|st _ IH].
  - split; [by eapply createBoard_mineCount|]. intros p. by eapply createBoard_adjacentOK.
  - pose proof (openCell_revealed _ _ _ _ _ Hrun) as Hrev. split.
    + rewrite (countCells_Forall2_eq opened isMine (board st)); [done| |done].
      by intros c c' [->|(_ & _ & ->)].
    + intros p. by eapply adjacentOK_revealed.
  - unfold tick. by destruct (isTimerActive st).
Qed.

(** X3: play keeps what generation gave.  In every state of a game the
    board is 10 by 10, holds exactly 10 mines, no cell is flagged, no mine is
    open, and every cell without a mine carries the number of mines among
    its neighbours. *)
Theorem board_invariant (st : State) :
  reachable st →
  square (board st) ∧
  Z.of_nat (countCells isMine (board st)) = MINES_COUNT ∧
  countCells isFlagged (board st) = 0%nat ∧
  countCells openMine (board st) = 0%nat ∧
  ∀ row col cell,
    getCell (board st) row col = Some cell → isMine cell = false →
    adjacentMines cell = neighbourMines (board st) row col.
Proof.
  intros Hst. destruct (reachable_layout st Hst) as [Hm Ha]. split_and!.
  - by apply reachable_square.
  - done.
  - by apply reachable_unflagged.
  - by apply reachable_invariant.
  - intros row col. apply (Ha (row, col)).
Qed.

Lemma board_invariant_witness :
  reachable almostWon ∧
  square (board almostWon) ∧
  Z.of_nat (countCells isMine (board almostWon)) = MINES_COUNT ∧
  countCells isFlagged (board almostWon) = 0%nat ∧
  countCells openMine (board almostWon) = 0%nat ∧
  ∀ row col cell,
    getCell (board almostWon) row col = Some cell → isMine cell = false →
    adjacentMines cell = neighbourMines (board almostWon) row col.
Proof.
  split; [apply reachable_almostWon|].
  apply (board_invariant almostWon). apply reachable_almostWon.
Defined.

(** ** Presses inside the grid *)

Lemma forEachM_not_Throws {A S : Type} (I : S → Prop)
    (f : A → S → res S) (xs : list A) (acc : S) :
  I acc →
  (∀ x a, x ∈ xs → I a → f x a ≠ Throws ∧ ∀ a', f x a = Returns a' → I a') →
  forEachM f xs acc ≠ Throws.
Proof.
  revert acc. induction xs as [|x xs IH]; simpl; intros acc Hacc Hf; [done|].
  destruct (Hf x acc) as [Hne Hstep]; [by left|done|].
  destruct (f x acc) as [a| |]; simpl; [|done|done].
  apply IH; [by apply Hstep|]. intros y b Hy. apply Hf. by right.
Qed.

(** On a 10 by 10 board the recursion never reads outside the board. *)
Lemma openCellRecursive_square (fuel : nat) (b : Board) (row col : Z) :
  square b → openCellRecursive fuel b row col ≠ Throws.
Proof.
  revert b row col. induction fuel as [|fuel IH]; intros b row col Hb; simpl; [done|].
  destruct (_ || _) eqn:Hoob; [done|].
  assert (inBounds row col = true) as Hin.
  { apply orb_false_iff in Hoob as [[[Hr1 Hr2]%orb_false_iff Hc1]%orb_false_iff Hc2].
    apply bool_decide_eq_false in Hr1, Hr2, Hc1, Hc2.
    unfold inBounds. rewrite !bool_decide_eq_true_2 by lia. done. }
  destruct (getCell_inside b row col Hb Hin) as [c Hc].
  rewrite (proj2 (cellProp_Returns isOpen b row col (isOpen c))) by eauto. simpl.
  destruct (isOpen c); simpl; [done|].
  rewrite (proj2 (cellProp_Returns isMine b row col (isMine c))) by eauto. simpl.
  destruct (isMine c); [done|].
  pose proof (assignCell_Some setOpen b row col c Hc) as Hb1. rewrite Hb1. simpl.
  assert (square (alter (alter setOpen (Z.to_nat col)) (Z.to_nat row) b)) as Hsq.
  { eapply (square_Forall2 (λ _ _, True)); [|exact Hb].
    eapply assignCell_Forall2; [| |exact Hb1]; done. }
  pose proof (getCell_assignCell _ _ _ _ _ row col Hb1) as Hget.
  rewrite decide_True, Hc in Hget by done.
  rewrite (proj2 (cellProp_Returns adjacentMines _ row col (adjacentMines c)));
    [|by exists (setOpen c)].
  simpl. destruct (bool_decide (adjacentMines c = 0)); [|done].
  destruct (getAdjacentCells_square _ row col Hsq) as [cells ->]. simpl.
  apply (forEachM_not_Throws square); [done|].
  intros index b2 _ Hb2. split; [by apply IH|].
  intros b3 Hb3%openCellRecursive_revealed. by eapply square_Forall2.
Qed.

Lemma openCell_in_grid (fuel : nat) (st : State) (row col : Z) :
  reachable st → inBounds row col = true → (11 ≤ fuel)%nat →
  ∃ st', openCell fuel st row col = Returns st'.
Proof.
  intros Hst Hin Hfuel. pose proof (reachable_square st Hst) as Hsq.
  pose proof (openCell_terminates fuel st row col Hfuel) as Hterm.
  destruct (openCell fuel st row col) as [st'| |] eqn:Hrun; [by eexists| |done].
  exfalso. revert Hrun. unfold openCell. destruct (_ || _); [done|].
  destruct (getCell_inside _ row col Hsq Hin) as [c Hc].
  rewrite (proj2 (cellProp_Returns isOpen _ row col (isOpen c))) by eauto. simpl.
  destruct (isOpen c); simpl; [done|].
  rewrite (proj2 (cellProp_Returns isFlagged _ row col (isFlagged c))) by eauto. simpl.
  destruct (isFlagged c); [done|].
  pose proof (openCellRecursive_square fuel _ row col Hsq) as Hrec.
  destruct (openCellRecursive _ _ row col) as [b'| |] eqn:Hb'; simpl; [|done|done].
  apply openCellRecursive_revealed in Hb'.
  destruct (Forall2_getCell _ _ _ _ _ _ Hb' Hc) as (c' & Hc' & _).
  rewrite (proj2 (cellProp_Returns isMine b' row col (isMine c'))) by eauto. simpl.
  destruct (isMine c'); [done|]. by destruct (checkWin b').
Qed.

(** X4: in a game, a press on a cell of the grid never throws: with 11
    levels of recursion or more, [openCell] returns a state, which is again
    a state of the game. *)
Theorem reveal_in_grid_returns (st : State) (row col : Z) (k : nat) :
  reachable st → inBounds row col = true →
  ∃ st', openCell (11 + k) st row col = Returns st' ∧ reachable st'.
Proof.
  intros Hst Hin.
  destruct (openCell_in_grid (11 + k) st row col Hst Hin) as [st' Hrun]; [lia|].
  exists st'. split; [done|]. by eapply reach_open.
Qed.

Lemma reveal_in_grid_returns_witness :
  reachable afterCorner ∧ inBounds 3 7 = true ∧
  ∃ st', openCell (11 + 0) afterCorner 3 7 = Returns st' ∧ reachable st'.
Proof.
  split; [apply reachable_afterCorner|]. split; [reflexivity|].
  apply (reveal_in_grid_returns afterCorner 3 7 0);
    [apply reachable_afterCorner|reflexivity].
Defined.

(** X5: a press repeated on the same cell of the grid does nothing more:
    the state a press returns is returned again by a second press there. *)
Theorem reveal_idempotent (fuel fuel' : nat) (st st' : State) (row col : Z) :
  inBounds row col = true →
  openCell fuel st row col = Returns st' →
  openCell fuel' st' row col = Returns st'.
Proof.
  intros Hin Hrun.
  assert (isGameOver st' || isGameWon st' = true ∨
          cellProp isOpen (board st') row col = Returns true ∨
          (cellProp isOpen (board st') row col = Returns false ∧
           cellProp isFlagged (board st') row col = Returns true)) as Hcase.
  { revert Hrun. unfold openCell.
    destruct (isGameOver st || isGameWon st) eqn:Hend; [intros; simplify_eq; auto|].
    intros (o & Ho & Hrun)%bind_Returns. inv_bind Hrun as f Hf.
    destruct f.
    { simplify_eq. destruct o; auto. }
    destruct o; [done|].
    inv_bind Hrun as b' Hb'. inv_bind Hrun as m Hm.
    destruct m; [simplify_eq; auto|].
    pose proof (openCellRecursive_target_open _ _ _ _ _ Hin Hb' Hm) as Hopen.
    destruct (checkWin b'); simplify_eq/=; auto. }
  unfold openCell. destruct (isGameOver st' || isGameWon st'); [done|].
  destruct Hcase as [?|[->|[-> ->]]]; done.
Qed.

Lemma reveal_idempotent_witness :
  inBounds 0 0 = true ∧
  openCell 11 (newGame lastRowBoard) 0 0 = Returns afterCorner ∧
  openCell 3 afterCorner 0 0 = Returns afterCorner.
Proof.
  split; [reflexivity|]. split; [vm_compute; reflexivity|].
  apply (reveal_idempotent 11 3 (newGame lastRowBoard) afterCorner 0 0);
    [reflexivity|vm_compute; reflexivity].
Defined.

(** X6: in a game in progress a press that returns loses the game exactly
    when the pressed cell holds a mine. *)
Theorem loss_iff_mine (fuel : nat) (st st' : State) (row col : Z) :
  reachable st → outcome st = InProgress →
  openCell fuel st row col = Returns st' →
  (outcome st' = Loss ↔ mineAt (board st) (row, col) = true).
Proof.
  intros Hst Hplay Hrun.
  pose proof (reachable_unflagged st Hst) as Hflags%countCells_zero.
  destruct (reachable_invariant st Hst) as [Hopen%countCells_zero _].
  apply outcome_InProgress in Hplay as Hflag. destruct Hflag as [Hover Hwon].
  revert Hrun. unfold openCell, mineAt. rewrite Hover, Hwon. simpl.
  intros (o & Ho & Hrun)%bind_Returns.
  apply cellProp_Returns in Ho as (c & Hc & <-). rewrite Hc.
  pose proof (Forall_getCell _ _ _ _ _ Hflags Hc) as Hcf. simpl in Hcf.
  pose proof (Forall_getCell _ _ _ _ _ Hopen Hc) as Hco. unfold openMine in Hco.
  rewrite (proj2 (cellProp_Returns isFlagged _ row col (isFlagged c))) in Hrun by eauto.
  rewrite Hcf in Hrun. destruct (isOpen c) eqn:Hisopen; simpl in Hrun.
  { simplify_eq. rewrite Hplay. rewrite andb_true_r in Hco. by rewrite Hco. }
  inv_bind Hrun as b' Hb'. inv_bind Hrun as m Hm.
  pose proof (openCellRecursive_revealed _ _ _ _ _ Hb') as Hrev.
  apply (revealed_cellProp isMine _ _ _ _ _ (λ _, eq_refl) Hrev) in Hm.
  apply cellProp_Returns in Hm as (c2 & Hc2 & <-).
  assert (c2 = c) as -> by congruence.
  destruct (isMine c); [|destruct (checkWin b')]; simplify_eq/=;
    unfold outcome; simpl; by rewrite ?Hover, ?Hwon.
Qed.

Lemma loss_iff_mine_witness :
  reachable (newGame lastRowBoard) ∧ outcome (newGame lastRowBoard) = InProgress ∧
  openCell 11 (newGame lastRowBoard) 9 0 = Returns afterMine ∧
  (outcome afterMine = Loss ↔ mineAt lastRowBoard (9, 0) = true).
Proof.
  split; [apply reachable_start|]. split; [reflexivity|].
  split; [vm_compute; reflexivity|].
  apply (loss_iff_mine 11 (newGame lastRowBoard) afterMine 9 0);
    [apply reachable_start|reflexivity|vm_compute; reflexivity].
Defined.

(** X7: a press changes cells down the diagonal of the pressed cell only:
    every cell that differs after the press lies at [(row + k, col + k)]
    for some [k] that is not negative. *)
Theorem reveal_diagonal (fuel : nat) (st st' : State) (row col : Z) :
  openCell fuel st row col = Returns st' →
  ∀ r c, getCell (board st') r c ≠ getCell (board st) r c →
         ∃ k, 0 ≤ k ∧ r = row + k ∧ c = col + k.
Proof.
  intros Hrun r c Hne.
  assert (changesOnly (downDiagonal row col) (board st) (board st')) as Hdiag.
  { revert Hrun. unfold openCell. destruct (_ || _); [intros; simplify_eq; reflexivity|].
    intros (o & Ho & Hrun)%bind_Returns. inv_bind Hrun as f Hf.
    destruct f; [simplify_eq; reflexivity|].
    inv_bind Hrun as b' Hb'. inv_bind Hrun as m Hm.
    apply openCellRecursive_diagonal in Hb'.
    destruct m; [|destruct (checkWin b')]; by simplify_eq/=. }
  destruct (Hdiag r c Hne) as [Hrow Hcol]. simpl in *.
  exists (r - row). lia.
Qed.

Lemma reveal_diagonal_witness :
  openCell 11 (newGame lastRowBoard) 0 0 = Returns afterCorner ∧
  ∀ r c, getCell (board afterCorner) r c ≠ getCell lastRowBoard r c →
         ∃ k, 0 ≤ k ∧ r = 0 + k ∧ c = 0 + k.
Proof.
  split; [vm_compute; reflexivity|].
  apply (reveal_diagonal 11 (newGame lastRowBoard) afterCorner 0 0).
  vm_compute. reflexivity.
Defined.

(** ** Events *)

Lemma reachable_handle (fuel : nat) (e : Event) (st st' : State) :
  reachable st → handle fuel e st = Returns st' → reachable st'.
Proof.
  intros Hst. destruct e as [row col|]; simpl; intros Hrun.
  - by eapply reach_open.
  - simplify_eq. by apply reach_tick.
Qed.

Lemma handle_finished (fuel : nat) (e : Event) (st : State) :
  reachable st → outcome st ≠ InProgress → handle fuel e st = Returns st.
Proof.
  intros Hst Hend. destruct e as [row col|]; simpl.
  - by apply reveal_finished.
  - destruct (reachable_flags st Hst) as (Htimer & _). unfold tick.
    destruct (isTimerActive st); [|done]. by destruct Hend; apply Htimer.
Qed.

Lemma run_finished (fuel : nat) (events : list Event) (st : State) :
  reachable st → outcome st ≠ InProgress → run fuel events st = Returns st.
Proof.
  intros Hst Hend. unfold run. induction events as [|e events IH]; simpl; [done|].
  by rewrite handle_finished.
Qed.

(** X8: a game that is won or lost is frozen: no sequence of presses, at
    any coordinates, and of ticks changes the state, not even the timer. *)
Theorem finished_game_frozen (fuel : nat) (events : list Event) (st : State) :
  reachable st → outcome st = Win ∨ outcome st = Loss →
  run fuel events st = Returns st.
Proof.
  intros Hst Hend. apply run_finished; [done|]. intros Hplay. rewrite Hplay in Hend.
  by destruct Hend.
Qed.

Lemma finished_game_frozen_witness :
  reachable won ∧ (outcome won = Win ∨ outcome won = Loss) ∧
  run 11 [Press 9 9; Tick; Press 20 (-3); Tick; Press 0 0] won = Returns won.
Proof.
  split; [apply reachable_won|].
  split; [left; vm_compute; reflexivity|].
  apply (finished_game_frozen 11 [Press 9 9; Tick; Press 20 (-3); Tick; Press 0 0] won);
    [apply reachable_won|left; vm_compute; reflexivity].
Defined.

Lemma openCell_timer (fuel : nat) (st st' : State) (row col : Z) :
  openCell fuel st row col = Returns st' → timer st' = timer st.
Proof.
  unfold openCell. destruct (_ || _); [by intros; simplify_eq|].
  intros (o & Ho & Hrun)%bind_Returns. inv_bind Hrun as f Hf.
  destruct f; [by simplify_eq|].
  inv_bind Hrun as b' Hb'. inv_bind Hrun as m Hm.
  destruct m; [|destruct (checkWin b')]; by simplify_eq/=.
Qed.

(** X9: the timer counts the ticks of the game in progress.  After a run of
    presses and ticks that leaves the game in progress, the timer has grown
    by the number of ticks; in any case it has grown by no more, and a press
    never changes it. *)
Theorem timer_counts_ticks (fuel : nat) (events : list Event) (st st' : State) :
  reachable st → run fuel events st = Returns st' →
  timer st ≤ timer st' ≤ timer st + ticks events ∧
  (outcome st' = InProgress → timer st' = timer st + ticks events).
Proof.
  unfold run, ticks. revert st. induction events as [|e events IH]; simpl; intros st Hst Hrun.
  { simplify_eq. simpl. lia. }
  inv_bind Hrun as st1 Hst1.
  pose proof (reachable_handle _ _ _ _ Hst Hst1) as Hreach.
  destruct (IH st1 Hreach Hrun) as [Hbound Hexact].
  destruct (decide (outcome st = InProgress)) as [Hplay|Hend].
  - destruct e as [row col|]; simpl in Hst1.
    + apply openCell_timer in Hst1. rewrite filter_cons. simpl.
      rewrite <- Hst1. done.
    + simplify_eq. rewrite filter_cons. simpl.
      destruct (reachable_flags st Hst) as (Htimer & _).
      apply Htimer in Hplay. unfold tick in *. rewrite Hplay in *. simpl in *.
      rewrite Nat2Z.inj_succ. split; [lia|]. intros Hp. specialize (Hexact Hp). lia.
  - rewrite (handle_finished _ _ _ Hst Hend) in Hst1. simplify_eq.
    fold (run fuel events st1) in Hrun.
    rewrite (run_finished _ _ _ Hst Hend) in Hrun. simplify_eq.
    split; [|done]. split; [lia|].
    assert (0 ≤ Z.of_nat (length (filter (λ e0, isTick e0 = true) (e :: events)))) by lia.
    lia.
Qed.

Lemma timer_counts_ticks_witness :
  reachable (newGame lastRowBoard) ∧
  run 11 fiveEvents (newGame lastRowBoard) = Returns afterFiveEvents ∧
  outcome afterFiveEvents = InProgress ∧
  timer afterFiveEvents = 0 + 3.
Proof.
  split; [apply reachable_start|].
  split; [vm_compute; reflexivity|].
  split; [vm_compute; reflexivity|].
  destruct (timer_counts_ticks 11 fiveEvents (newGame lastRowBoard) afterFiveEvents)
    as [_ Hexact]; [apply reachable_start|vm_compute; reflexivity|].
  apply Hexact. vm_compute. reflexivity.
Defined.

(** ** More on generation *)

Lemma assignCell_Forall2_at (R : Cell → Cell → Prop) (f : Cell → Cell)
    (b b' : Board) (row col : Z) :
  (∀ c, R c c) → (∀ c, getCell b row col = Some c → R c (f c)) →
  assignCell f b row col = Returns b' →
  Forall2 (Forall2 R) b b'.
Proof.
  intros Hrefl Hf [[c Hc] ->]%assignCell_Returns. specialize (Hf c Hc).
  unfold getCell in Hc. destruct (at_index b row) as [r|] eqn:Hr; [|done].
  apply at_index_Some in Hr as [_ Hr], Hc as [_ Hc].
  apply Forall2_same_length_lookup. split; [by rewrite length_alter|].
  intros i r1 r2 Hr1. destruct (decide (i = Z.to_nat row)) as [->|Hi].
  - rewrite list_lookup_alter_eq, Hr. simpl. intros ?. simplify_eq.
    apply Forall2_same_length_lookup. split; [by rewrite length_alter|].
    intros j c1 c2 Hc1. destruct (decide (j = Z.to_nat col)) as [->|Hj].
    + rewrite list_lookup_alter_eq, Hc. simpl. intros ?. by simplify_eq.
    + rewrite list_lookup_alter_ne by done. intros ?. by simplify_eq.
  - rewrite list_lookup_alter_ne by done. intros ?. simplify_eq.
    apply Forall_Forall2_diag, Forall_forall. auto.
Qed.

Lemma assignCell_Forall (P : Cell → Prop) (f : Cell → Cell) (b b' : Board) (row col : Z) :
  Forall (Forall P) b → (∀ c, getCell b row col = Some c → P (f c)) →
  assignCell f b row col = Returns b' →
  Forall (Forall P) b'.
Proof.
  intros Hb Hf Hrun.
  pose proof (assignCell_Forall2_at (λ c c', P c → P c') f b b' row col) as Hrel.
  eapply Forall2_Forall_r; [apply Hrel; auto|].
  eapply Forall_impl; [exact Hb|]. intros r Hr r' Hrr.
  eapply Forall2_Forall_r; [exact Hrr|]. eapply Forall_impl; [exact Hr|]. auto.
Qed.

Lemma forEachM_preserves {A S : Type} (I : S → Prop)
    (f : A → S → res S) (xs : list A) (acc acc' : S) :
  (∀ x a a', f x a = Returns a' → I a → I a') →
  forEachM f xs acc = Returns acc' → I acc → I acc'.
Proof.
  intros Hf. revert acc. induction xs as [|x xs IH]; simpl; intros acc Hrun Hacc.
  - by simplify_eq.
  - inv_bind Hrun as a Ha. eauto.
Qed.

Lemma neighbourMines_range (b : Board) (row col : Z) : 0 ≤ neighbourMines b row col ≤ 8.
Proof.
  unfold neighbourMines, neighbours.
  split; [lia|]. etrans; [apply inj_le, length_filter|].
  etrans; [apply inj_le, length_filter|]. done.
Qed.

Lemma countAdjacent_range (row col : Z) (b b' : Board) :
  countAdjacent row col b = Returns b' →
  Forall (Forall countInRange) b → Forall (Forall countInRange) b'.
Proof.
  unfold countAdjacent. intros (m & Hm & Hrun)%bind_Returns Hb.
  apply cellProp_Returns in Hm as (c & Hc & <-).
  destruct (isMine c) eqn:Hmine; simpl in Hrun; [by simplify_eq|].
  inv_bind Hrun as cells Hcells. inv_bind Hrun as n Hn.
  apply getAdjacentCells_Returns in Hcells as ->. apply countMines_Returns in Hn.
  eapply assignCell_Forall; [exact Hb| |exact Hrun].
  intros c' Hc'. assert (c' = c) as -> by congruence.
  split; simpl; [|congruence]. subst n. apply neighbourMines_range.
Qed.

Lemma placeMines_counts (rand : list Z) (k : Z) (b b' : Board) :
  placeMines rand k b = Returns b' →
  Forall (Forall (λ c, adjacentMines c = 0)) b →
  Forall (Forall (λ c, adjacentMines c = 0)) b'.
Proof.
  revert k b. induction rand as [| |row col rand IH] using list_pair_ind;
    intros k b; simpl; case_bool_decide; intros Hrun Hb; simplify_eq; try done.
  inv_bind Hrun as m Hm. destruct m; simpl in Hrun; [by eapply IH|].
  inv_bind Hrun as b1 Hb1. eapply IH; [done|].
  eapply assignCell_Forall; [exact Hb| |exact Hb1].
  intros c Hc. simpl. by apply (Forall_getCell _ _ _ _ _ Hb Hc).
Qed.

(** X10: in a board that [createBoard] returns every [adjacentMines] is a
    number from 0 to 8, and it is 0 on a mine. *)
Theorem createBoard_counts_range (rand : list Z) (b : Board) (row col : Z) (cell : Cell) :
  createBoard rand = Returns b →
  getCell b row col = Some cell →
  0 ≤ adjacentMines cell ≤ 8 ∧ (isMine cell = true → adjacentMines cell = 0).
Proof.
  unfold createBoard. intros (b1 & Hb1 & Hb)%bind_Returns Hcell.
  apply placeMines_counts in Hb1.
  - assert (Forall (Forall countInRange) b) as Hrange.
    { unfold countAll in Hb.
      eapply (forEachM_preserves (Forall (Forall countInRange))); [|exact Hb|].
      - intros r b2 b3 Hb3. eapply (forEachM_preserves (Forall (Forall countInRange)));
          [|exact Hb3]. intros c. apply countAdjacent_range.
      - eapply Forall_impl; [exact Hb1|]. intros r Hr. eapply Forall_impl; [exact Hr|].
        intros c Hc. unfold countInRange. rewrite Hc. split; [lia|done]. }
    apply (Forall_getCell _ _ _ _ _ Hrange Hcell).
  - apply Forall_forall. intros r [-> _]%elem_of_replicate.
    apply Forall_forall. by intros c [-> _]%elem_of_replicate.
Qed.

Lemma createBoard_counts_range_witness :
  createBoard lastRowSamples = Returns lastRowBoard ∧
  getCell lastRowBoard 8 4 = Some (mkCell false false false 3) ∧
  0 ≤ 3 ≤ 8 ∧ (false = true → 3 = 0).
Proof.
  split; [vm_compute; reflexivity|]. split; [reflexivity|].
  apply (createBoard_counts_range lastRowSamples lastRowBoard 8 4 (mkCell false false false 3));
    [vm_compute; reflexivity|reflexivity].
Defined.

(** X11: a new board has 10 rows of 10 cells, 100 cells in all; the 90
    cells without a mine are closed, so that a new game is not won. *)
Theorem createBoard_new_game (rand : list Z) (b : Board) :
  createBoard rand = Returns b →
  square b ∧ length (concat b) = 100%nat ∧
  countCells safeClosed b = 90%nat ∧ checkWin b = false.
Proof.
  intros Hrun. pose proof (createBoard_shape _ _ Hrun) as Hsq.
  pose proof (createBoard_safeClosed _ _ Hrun) as Hsafe.
  split_and!; [done|by apply square_cells|done|].
  apply not_true_is_false. intros Hwin%checkWin_spec. lia.
Qed.

Lemma createBoard_new_game_witness :
  createBoard lastRowSamples = Returns lastRowBoard ∧
  square lastRowBoard ∧ length (concat lastRowBoard) = 100%nat ∧
  countCells safeClosed lastRowBoard = 90%nat ∧ checkWin lastRowBoard = false.
Proof.
  split; [vm_compute; reflexivity|].
  apply (createBoard_new_game lastRowSamples lastRowBoard). vm_compute. reflexivity.
Defined.

(** ** Which cells get the mines *)

Lemma firstDistinct_0 (seen ps : list (Z * Z)) : firstDistinct 0 seen ps = [].
Proof. by destruct ps. Qed.

(** [firstDistinct] lists coordinates of the list that are not in [seen],
    without repetition. *)
Lemma firstDistinct_NoDup (n : nat) (seen ps : list (Z * Z)) :
  NoDup (firstDistinct n seen ps) ∧
  ∀ p, p ∈ firstDistinct n seen ps → (p ∉ seen) ∧ (p ∈ ps).
Proof.
  revert n seen. induction ps as [|q ps IH]; intros n seen; simpl.
  { split; [constructor|]. by intros p ?%elem_of_nil. }
  destruct n as [|n]; [split; [constructor|]; by intros p ?%elem_of_nil|].
  case_decide as Hq.
  - destruct (IH (S n) seen) as [Hnd Hin]. split; [done|].
    intros p Hp. destruct (Hin p Hp). split; [done|by right].
  - destruct (IH n (q :: seen)) as [Hnd Hin]. split.
    + constructor; [|done]. intros Hq'%Hin. destruct Hq' as [Hq' _]. apply Hq'. by left.
    + intros p [->|Hp]%elem_of_cons; [split; [done|by left]|].
      destruct (Hin p Hp) as [Hseen ?]. split; [|by right].
      intros ?. apply Hseen. by right.
Qed.

Lemma mineAt_assignCell_setMine (b b' : Board) (row col : Z) (p : Z * Z) :
  assignCell setMine b row col = Returns b' →
  (mineAt b' p = true ↔ p = (row, col) ∨ mineAt b p = true).
Proof.
  intros Hb1. unfold mineAt. rewrite (getCell_assignCell _ _ _ _ _ p.1 p.2 Hb1).
  apply assignCell_Returns in Hb1 as [[c Hc] _]. destruct p as [r c0]. simpl.
  case_decide as Heq.
  - destruct Heq as [-> ->]. rewrite Hc. simpl. naive_solver.
  - destruct (getCell b r c0); naive_solver.
Qed.

Lemma placeMines_mines (rand : list Z) (k : Z) (b b' : Board) (seen : list (Z * Z)) :
  placeMines rand k b = Returns b' →
  (∀ p, mineAt b p = true ↔ p ∈ seen) →
  (∀ p, mineAt b' p = true ↔
        p ∈ seen ∨ p ∈ firstDistinct (Z.to_nat (MINES_COUNT - k)) seen (pairsOf rand)) ∧
  length (firstDistinct (Z.to_nat (MINES_COUNT - k)) seen (pairsOf rand)) =
  Z.to_nat (MINES_COUNT - k).
Proof.
  revert k b seen. induction rand as [| |row col rand IH] using list_pair_ind;
    intros k b seen; simpl; case_bool_decide as Hk; intros Hrun Hseen; simplify_eq.
  - replace (Z.to_nat (MINES_COUNT - k)) with 0%nat by lia.
    split; [|done]. intros p. rewrite Hseen, elem_of_nil. naive_solver.
  - replace (Z.to_nat (MINES_COUNT - k)) with 0%nat by lia.
    split; [|done]. intros p. rewrite Hseen, elem_of_nil. naive_solver.
  - replace (Z.to_nat (MINES_COUNT - k)) with (S (Z.to_nat (MINES_COUNT - (k + 1)))) by lia.
    inv_bind Hrun as m Hm. apply cellProp_Returns in Hm as (c & Hc & <-).
    assert (mineAt b (row, col) = isMine c) as Hmine by (unfold mineAt; simpl; by rewrite Hc).
    destruct (isMine c) eqn:Hisc; simpl in Hrun.
    + apply Hseen in Hmine. rewrite decide_True by done.
      replace (S (Z.to_nat (MINES_COUNT - (k + 1)))) with (Z.to_nat (MINES_COUNT - k)) by lia.
      by eapply IH.
    + assert ((row, col) ∉ seen) as Hnew.
      { intros Hin%Hseen. congruence. }
      rewrite decide_False by done.
      inv_bind Hrun as b1 Hb1.
      destruct (IH (k + 1) b1 ((row, col) :: seen) Hrun) as [Hmines Hlen].
      { intros p. rewrite (mineAt_assignCell_setMine _ _ _ _ _ Hb1), Hseen, elem_of_cons.
        done. }
      split; [|simpl; by rewrite Hlen].
      intros p. rewrite Hmines, !elem_of_cons. naive_solver.
  - replace (Z.to_nat (MINES_COUNT - k)) with 0%nat by lia. simpl.
    split; [|done]. intros p. rewrite Hseen, elem_of_nil. naive_solver.
Qed.

Lemma mineAt_blankBoard (p : Z * Z) : mineAt blankBoard p = false.
Proof.
  unfold mineAt. destruct (getCell blankBoard p.1 p.2) as [c|] eqn:Hc; [|done].
  by apply getCell_blankBoard in Hc as [_ ->].
Qed.

(** X12: the mines of a new board lie on the first 10 coordinates sampled
    that are distinct: these are 10 coordinates without repetition, and a
    coordinate holds a mine exactly when it is one of them, whatever is
    sampled afterwards. *)
Theorem createBoard_mines (rand : list Z) (b : Board) :
  createBoard rand = Returns b →
  length (firstDistinct 10 [] (pairsOf rand)) = 10%nat ∧
  NoDup (firstDistinct 10 [] (pairsOf rand)) ∧
  ∀ p, mineAt b p = true ↔ p ∈ firstDistinct 10 [] (pairsOf rand).
Proof.
  unfold createBoard. intros (b1 & Hb1 & Hb)%bind_Returns.
  apply countAll_Returns in Hb as [Hlayout _].
  destruct (placeMines_mines _ _ _ _ [] Hb1) as [Hmines Hlen].
  { intros p. rewrite mineAt_blankBoard, elem_of_nil. naive_solver. }
  split; [exact Hlen|]. split; [apply firstDistinct_NoDup|].
  intros p. rewrite (mineAt_sameLayout b1 b) by done.
  rewrite Hmines, elem_of_nil. change (Z.to_nat (MINES_COUNT - 0)) with 10%nat. naive_solver.
Qed.

Lemma createBoard_mines_witness :
  createBoard repeatSamples = Returns repeatBoard ∧
  firstDistinct 10 [] (pairsOf repeatSamples) =
    [(3, 3); (9, 0); (9, 1); (9, 2); (9, 3); (9, 4); (9, 5); (9, 6); (9, 7); (9, 8)] ∧
  mineAt repeatBoard (3, 3) = true ∧ mineAt repeatBoard (9, 9) = false ∧
  length (firstDistinct 10 [] (pairsOf repeatSamples)) = 10%nat ∧
  NoDup (firstDistinct 10 [] (pairsOf repeatSamples)) ∧
  ∀ p, mineAt repeatBoard p = true ↔ p ∈ firstDistinct 10 [] (pairsOf repeatSamples).
Proof.
  split; [vm_compute; reflexivity|]. split; [vm_compute; reflexivity|].
  split; [vm_compute; reflexivity|]. split; [vm_compute; reflexivity|].
  apply (createBoard_mines repeatSamples repeatBoard). vm_compute. reflexivity.
Defined.

(** ** When generation ends *)

Lemma placeMines_returns (rand : list Z) (k : Z) (b : Board) (seen : list (Z * Z)) :
  square b → Forall (λ x, 0 ≤ x < BOARD_SIZE) rand →
  (∀ p, mineAt b p = true ↔ p ∈ seen) →
  length (firstDistinct (Z.to_nat (MINES_COUNT - k)) seen (pairsOf rand)) =
    Z.to_nat (MINES_COUNT - k) →
  ∃ b', placeMines rand k b = Returns b'.
Proof.
  revert k b seen. induction rand as [| |row col rand IH] using list_pair_ind;
    intros k b seen Hb Hrand Hseen; simpl; case_bool_decide as Hk; intros Hlen;
    try (by eexists); try lia.
  apply Forall_cons in Hrand as [Hrow [Hcol Hrand]%Forall_cons].
  destruct (getCell_inside b row col Hb) as [c Hc].
  { unfold inBounds. rewrite !bool_decide_eq_true_2 by lia. done. }
  rewrite (proj2 (cellProp_Returns isMine b row col (isMine c))) by eauto. simpl.
  assert (mineAt b (row, col) = isMine c) as Hmine by (unfold mineAt; simpl; by rewrite Hc).
  replace (Z.to_nat (MINES_COUNT - k)) with (S (Z.to_nat (MINES_COUNT - (k + 1)))) in Hlen
    by lia.
  destruct (isMine c) eqn:Hisc; simpl.
  - apply Hseen in Hmine. rewrite decide_True in Hlen by done.
    apply (IH k b seen); try done.
    by replace (Z.to_nat (MINES_COUNT - k)) with (S (Z.to_nat (MINES_COUNT - (k + 1)))) by lia.
  - assert ((row, col) ∉ seen) as Hnew.
    { intros Hin%Hseen. congruence. }
    rewrite decide_False in Hlen by done. simpl in Hlen.
    pose proof (assignCell_Some setMine b row col c Hc) as Hb1. rewrite Hb1. simpl.
    apply (IH (k + 1) _ ((row, col) :: seen)); [|done| |lia].
    + eapply (square_Forall2 (λ _ _, True)); [|exact Hb].
      eapply assignCell_Forall2; [| |exact Hb1]; done.
    + intros p. rewrite (mineAt_assignCell_setMine _ _ _ _ _ Hb1), Hseen, elem_of_cons.
      done.
Qed.

(** X13: with samples in the range of
    [Math.floor(Math.random() * BOARD_SIZE)], [createBoard] never throws,
    and it returns a board exactly when the samples hold 10 distinct
    coordinates; with fewer the loop that places the mines does not end. *)
Theorem createBoard_returns_iff (rand : list Z) :
  Forall (λ x, 0 ≤ x < BOARD_SIZE) rand →
  createBoard rand ≠ Throws ∧
  ((∃ b, createBoard rand = Returns b) ↔
   length (firstDistinct 10 [] (pairsOf rand)) = 10%nat).
Proof.
  intros Hrand. split; [by apply createBoard_not_Throws|]. split.
  - intros [b Hb]. unfold createBoard in Hb. inv_bind Hb as b1 Hb1.
    destruct (placeMines_mines _ _ _ _ [] Hb1) as [_ Hlen]; [|exact Hlen].
    intros p. rewrite mineAt_blankBoard, elem_of_nil. naive_solver.
  - intros Hlen.
    destruct (placeMines_returns rand 0 blankBoard []) as [b1 Hb1];
      [apply square_blankBoard|done| |exact Hlen|].
    { intros p. rewrite mineAt_blankBoard, elem_of_nil. naive_solver. }
    destruct (countAll_square b1) as [b Hb].
    { eapply (square_Forall2 sameMarks); [|apply square_blankBoard].
      by eapply placeMines_sameMarks. }
    exists b. unfold createBoard. by rewrite Hb1.
Qed.

Lemma createBoard_returns_iff_witness :
  Forall (λ x, 0 ≤ x < BOARD_SIZE) (take 18 repeatSamples) ∧
  length (firstDistinct 10 [] (pairsOf (take 18 repeatSamples))) = 8%nat ∧
  createBoard (take 18 repeatSamples) = OutOfFuel ∧
  createBoard (take 18 repeatSamples) ≠ Throws ∧
  ((∃ b, createBoard (take 18 repeatSamples) = Returns b) ↔
   length (firstDistinct 10 [] (pairsOf (take 18 repeatSamples))) = 10%nat).
Proof.
  assert (Forall (λ x, 0 ≤ x < BOARD_SIZE) (take 18 repeatSamples)) as Hrand.
  { apply (bool_decide_unpack _). vm_compute. exact I. }
  split; [exact Hrand|]. split; [vm_compute; reflexivity|].
  split; [vm_compute; reflexivity|].
  apply (createBoard_returns_iff (take 18 repeatSamples) Hrand).
Defined.

Example renderCell_closed :
  renderCell (newGame lastRowBoard) (mkCell true false false 0) = mkCellView "green" false [].
Proof. reflexivity. Qed.

Example renderCell_number :
  renderCell afterCorner (mkCell false true false 3) =
  mkCellView "lightgrey" false [Number 3 (Some "red")].
Proof. reflexivity. Qed.

Example renderCell_lost :
  renderCell afterMine (mkCell true false false 0) = mkCellView "green" true [Bomb].
Proof. reflexivity. Qed.

(** ** What the cells show *)

(** X14: a number shown on a cell of a game is the number of mines among
    the neighbours of the cell; the cell is open and holds no mine, the
    number is from 1 to 8 and [getNumberStyle] gives it a colour. *)
Theorem shown_number_correct (st : State) (row col : Z) (cell : Cell) (n : Z)
    (colour : option string) :
  reachable st →
  getCell (board st) row col = Some cell →
  Number n colour ∈ labels (renderCell st cell) →
  n = neighbourMines (board st) row col ∧ 1 ≤ n ≤ 8 ∧
  isOpen cell = true ∧ isMine cell = false ∧
  colour = getNumberStyle n ∧ is_Some colour.
Proof.
  intros Hst Hcell Hin. destruct (reachable_layout st Hst) as [_ Hadj].
  unfold renderCell in Hin. simpl in Hin.
  rewrite !elem_of_app in Hin. destruct Hin as [Hin|[Hin|Hin]].
  - destruct (_ && _); [|by apply elem_of_nil in Hin].
    by apply list_elem_of_singleton in Hin.
  - destruct (_ && _); [|by apply elem_of_nil in Hin].
    by apply list_elem_of_singleton in Hin.
  - destruct (isOpen cell) eqn:Hopen, (isMine cell) eqn:Hmine; simpl in Hin;
      try (by apply elem_of_nil in Hin).
    case_bool_decide as Hpos; [|by apply elem_of_nil in Hin].
    apply list_elem_of_singleton in Hin. simplify_eq.
    pose proof (Hadj (row, col) cell Hcell Hmine) as Hn. simpl in Hn.
    pose proof (neighbourMines_range (board st) row col) as Hrange.
    rewrite <- Hn in Hrange. split_and!; try done; try lia.
    assert (adjacentMines cell ∈ seqZ 1 8) as Hcases by (apply elem_of_seqZ; lia).
    revert Hcases. generalize (adjacentMines cell). apply Forall_forall.
    by apply (bool_decide_unpack _); vm_compute.
Qed.

Lemma shown_number_correct_witness :
  reachable afterCorner ∧
  getCell (board afterCorner) 8 8 = Some (mkCell false true false 3) ∧
  Number 3 (Some "red") ∈ labels (renderCell afterCorner (mkCell false true false 3)) ∧
  3 = neighbourMines (board afterCorner) 8 8 ∧ 1 ≤ 3 ≤ 8 ∧
  true = true ∧ false = false ∧
  Some "red" = getNumberStyle 3 ∧ is_Some (Some "red").
Proof.
  assert (Number 3 (Some "red") ∈ labels (renderCell afterCorner (mkCell false true false 3)))
    as Hin by (vm_compute; left).
  split; [apply reachable_afterCorner|]. split; [vm_compute; reflexivity|].
  split; [exact Hin|].
  apply (shown_number_correct afterCorner 8 8 (mkCell false true false 3) 3 (Some "red"));
    [apply reachable_afterCorner|vm_compute; reflexivity|exact Hin].
Defined.

(** X15: in a game a mine is shown only after a loss, by one bomb on a
    closed, green cell: the red background of an open mine is never
    rendered; and a cell without a mine never shows a bomb. *)
Theorem bombs_shown_after_loss (st : State) (row col : Z) (cell : Cell) :
  reachable st →
  getCell (board st) row col = Some cell →
  backgroundColor (renderCell st cell) ≠ "red" ∧
  (isMine cell = true →
   backgroundColor (renderCell st cell) = "green" ∧
   labels (renderCell st cell) = if decide (outcome st = Loss) then [Bomb] else []) ∧
  (isMine cell = false → Bomb ∉ labels (renderCell st cell)).
Proof.
  intros Hst Hcell.
  destruct (reachable_invariant st Hst) as [Hopen%countCells_zero _].
  pose proof (Forall_getCell _ _ _ _ _ Hopen Hcell) as Hco. unfold openMine in Hco.
  destruct (reachable_flags st Hst) as (_ & Hshow & Hnot).
  unfold renderCell. simpl. rewrite Hshow.
  destruct (isMine cell) eqn:Hmine, (isOpen cell) eqn:Hisopen; simplify_eq/=.
  - split; [done|]. split; [|done]. intros _. split; [done|].
    unfold outcome. destruct (isGameOver st) eqn:Hover, (isGameWon st) eqn:Hwon; simpl;
      try done. by destruct Hnot.
  - split; [done|]. split; [done|]. intros _. rewrite !andb_false_r. simpl.
    case_bool_decide; [|by intros ?%elem_of_nil].
    by intros ?%list_elem_of_singleton.
  - split; [done|]. split; [done|]. intros _. rewrite !andb_false_r. simpl.
    by intros ?%elem_of_nil.
Qed.

Lemma bombs_shown_after_loss_witness :
  reachable afterMine ∧
  getCell (board afterMine) 9 0 = Some (mkCell true false false 0) ∧
  backgroundColor (renderCell afterMine (mkCell true false false 0)) ≠ "red" ∧
  (true = true →
   backgroundColor (renderCell afterMine (mkCell true false false 0)) = "green" ∧
   labels (renderCell afterMine (mkCell true false false 0)) =
     if decide (outcome afterMine = Loss) then [Bomb] else []) ∧
  (true = false → Bomb ∉ labels (renderCell afterMine (mkCell true false false 0))).
Proof.
  split; [apply reachable_afterMine|]. split; [vm_compute; reflexivity|].
  apply (bombs_shown_after_loss afterMine 9 0 (mkCell true false false 0));
    [apply reachable_afterMine|vm_compute; reflexivity].
Defined.

(** X16: [getNumberStyle] gives a colour to the numbers 1 to 8 and to no
    other, and two different numbers never get the same colour. *)
Theorem getNumberStyle_colours (n m : Z) :
  (is_Some (getNumberStyle n) ↔ 1 ≤ n ≤ 8) ∧
  (is_Some (getNumberStyle n) → getNumberStyle n = getNumberStyle m → n = m).
Proof.
  assert (∀ k, is_Some (getNumberStyle k) → k ∈ seqZ 1 8) as Hdom.
  { intros k [s Hs]. apply elem_of_seqZ. unfold getNumberStyle in Hs.
    repeat case_match; simplify_eq; lia. }
  split.
  - split.
    + intros Hn%Hdom. apply elem_of_seqZ in Hn. lia.
    + intros Hn. assert (n ∈ seqZ 1 8) as Hin by (apply elem_of_seqZ; lia).
      clear Hn. revert n Hin. apply Forall_forall.
      by apply (bool_decide_unpack _); vm_compute.
  - intros Hn Heq. assert (is_Some (getNumberStyle m)) as Hm by (by rewrite <- Heq).
    apply Hdom in Hn, Hm.
    assert (Forall (λ n, Forall (λ m, getNumberStyle n = getNumberStyle m → n = m)
                           (seqZ 1 8)) (seqZ 1 8)) as Hall.
    { by apply (bool_decide_unpack _); vm_compute. }
    rewrite Forall_forall in Hall. specialize (Hall n Hn).
    rewrite Forall_forall in Hall. exact (Hall m Hm Heq).
Qed.

(** ** More on the time format *)

Lemma string_length_app (s t : string) :
  String.length (s +:+ t) = (String.length s + String.length t)%nat.
Proof.
  induction s as [|a s IH]; [done|].
  change (S (String.length (s +:+ t)) = S (String.length s + String.length t)).
  by rewrite IH.
Qed.

Lemma string_app_inj (s1 s2 t1 t2 : string) :
  String.length t1 = String.length t2 →
  s1 +:+ t1 = s2 +:+ t2 → s1 = s2 ∧ t1 = t2.
Proof.
  intros Hlen. revert s2. induction s1 as [|a s1 IH]; intros [|a' s2] Heq.
  - done.
  - exfalso. apply (f_equal String.length) in Heq.
    change (String.length t1 = S (String.length (s2 +:+ t2))) in Heq.
    rewrite string_length_app in Heq. lia.
  - exfalso. apply (f_equal String.length) in Heq.
    change (S (String.length (s1 +:+ t1)) = String.length t2) in Heq.
    rewrite string_length_app in Heq. lia.
  - change (String a (s1 +:+ t1) = String a' (s2 +:+ t2)) in Heq.
    simplify_eq. destruct (IH s2) as [-> ->]; done.
Qed.

Lemma digitChar_inj (d e : Z) :
  0 ≤ d < 10 → 0 ≤ e < 10 → digitChar d = digitChar e → d = e.
Proof.
  intros Hd He Heq.
  assert (d ∈ seqZ 0 10) as Hdin by (apply elem_of_seqZ; lia).
  assert (e ∈ seqZ 0 10) as Hein by (apply elem_of_seqZ; lia).
  assert (Forall (λ d, Forall (λ e, digitChar d = digitChar e → d = e) (seqZ 0 10))
            (seqZ 0 10)) as Hall.
  { by apply (bool_decide_unpack _); vm_compute. }
  rewrite Forall_forall in Hall. specialize (Hall d Hdin).
  rewrite Forall_forall in Hall. exact (Hall e Hein Heq).
Qed.

Lemma twoDigits_inj (r1 r2 : Z) :
  0 ≤ r1 < 60 → 0 ≤ r2 < 60 → twoDigits r1 = twoDigits r2 → r1 = r2.
Proof.
  intros H1 H2. unfold twoDigits. intros Heq. simplify_eq.
  assert (r1 `div` 10 = r2 `div` 10) as Hdiv.
  { apply digitChar_inj; [| |done].
    - split; [apply Z.div_pos; lia|apply Z.div_lt_upper_bound; lia].
    - split; [apply Z.div_pos; lia|apply Z.div_lt_upper_bound; lia]. }
  assert (r1 `mod` 10 = r2 `mod` 10) as Hmod.
  { apply digitChar_inj; [apply Z.mod_pos_bound; lia..|done]. }
  rewrite (Z.div_mod r1 10), (Z.div_mod r2 10) by lia. congruence.
Qed.

(** X17: two different whole numbers of seconds from 0 to
    [MAX_SAFE_INTEGER] never give the same text: [formatTime] can be read
    back. *)
Theorem formatTime_inj (s1 s2 : Z) :
  0 ≤ s1 ≤ MAX_SAFE_INTEGER → 0 ≤ s2 ≤ MAX_SAFE_INTEGER →
  formatTime s1 = formatTime s2 → s1 = s2.
Proof.
  intros H1 H2. unfold formatTime. rewrite !Z.rem_mod_nonneg by lia.
  assert (0 ≤ s1 `mod` 60 < 60) as Hr1 by (apply Z.mod_pos_bound; lia).
  assert (0 ≤ s2 `mod` 60 < 60) as Hr2 by (apply Z.mod_pos_bound; lia).
  rewrite !seconds_twoDigits by done. intros Heq.
  apply string_app_inj in Heq as [Hm Hs]; [|done].
  apply (inj pretty) in Hm.
  apply string_app_inj in Hs as [_ Hr]; [|done].
  apply twoDigits_inj in Hr; [|done..].
  rewrite (Z.div_mod s1 60), (Z.div_mod s2 60) by lia. congruence.
Qed.

Lemma formatTime_inj_witness :
  0 ≤ 125 ≤ MAX_SAFE_INTEGER ∧ 0 ≤ 60 * 2 + 5 ≤ MAX_SAFE_INTEGER ∧
  formatTime 125 = formatTime (60 * 2 + 5) ∧ 125 = 60 * 2 + 5.
Proof.
  assert (0 ≤ 125 ≤ MAX_SAFE_INTEGER) as H1 by (by vm_compute).
  assert (0 ≤ 60 * 2 + 5 ≤ MAX_SAFE_INTEGER) as H2 by (by vm_compute).
  split; [exact H1|]. split; [exact H2|]. split; [reflexivity|].
  apply (formatTime_inj 125 (60 * 2 + 5) H1 H2). reflexivity.
Defined.

(** ** A press on a closed cell without a mine *)

Lemma openCellRecursive_progress (fuel : nat) (b b' : Board) (row col : Z) (c : Cell) :
  inBounds row col = true →
  getCell b row col = Some c → isOpen c = false → isMine c = false →
  openCellRecursive fuel b row col = Returns b' →
  getCell b' row col = Some (setOpen c) ∧
  (countCells isClosed b' < countCells isClosed b)%nat.
Proof.
  intros Hin Hc Hclosed Hsafe Hrun.
  destruct fuel as [|fuel]; simpl in Hrun; [done|].
  unfold inBounds in Hin. repeat (apply andb_prop in Hin as [Hin ?]).
  repeat match goal with H : bool_decide _ = true |- _ => apply bool_decide_eq_true in H end.
  rewrite !bool_decide_eq_false_2 in Hrun by lia. simpl in Hrun.
  rewrite (proj2 (cellProp_Returns isOpen b row col false)) in Hrun by eauto. simpl in Hrun.
  rewrite (proj2 (cellProp_Returns isMine b row col false)) in Hrun by eauto. simpl in Hrun.
  inv_bind Hrun as b1 Hb1. inv_bind Hrun as a Ha.
  pose proof (countCells_assignCell isClosed _ _ _ _ _ _ Hc Hb1) as Hcount.
  replace (isClosed c) with true in Hcount by (unfold isClosed; by rewrite Hclosed).
  change (isClosed (setOpen c)) with false in Hcount. simpl in Hcount.
  pose proof (getCell_assignCell _ _ _ _ _ row col Hb1) as Hget.
  rewrite decide_True, Hc in Hget by done. simpl in Hget.
  assert (revealed b1 b') as Hrev.
  { case_bool_decide; [|simplify_eq; reflexivity].
    inv_bind Hrun as neighbors Hn.
    eapply (forEachM_invariant revealed); [|done].
    intros index b2 b3 _. apply openCellRecursive_revealed. }
  split.
  - destruct (Forall2_getCell _ _ _ _ _ _ Hrev Hget) as (c' & Hc' & Hcc).
    rewrite Hc'. by destruct Hcc as [->|(_ & ? & _)].
  - assert (countCells isClosed b' ≤ countCells isClosed b1)%nat; [|lia].
    eapply countCells_Forall2_le; [|exact Hrev].
    intros c2 c3 [->|(_ & _ & ->)]; [done|]. by unfold isClosed.
Qed.

(** X19: in a game in progress a press on a closed cell of the grid that
    holds no mine returns; the pressed cell is then open, with its other
    fields unchanged, the game is not lost, and the board has fewer closed
    cells than before. *)
Theorem reveal_opens_target (st : State) (row col : Z) (cell : Cell) (k : nat) :
  reachable st → outcome st = InProgress →
  inBounds row col = true →
  getCell (board st) row col = Some cell →
  isOpen cell = false → isMine cell = false →
  ∃ st', openCell (11 + k) st row col = Returns st' ∧
         getCell (board st') row col = Some (setOpen cell) ∧
         outcome st' ≠ Loss ∧
         (countCells isClosed (board st') < countCells isClosed (board st))%nat.
Proof.
  intros Hst Hplay Hin Hcell Hclosed Hsafe.
  destruct (openCell_in_grid (11 + k) st row col Hst Hin) as [st' Hrun]; [lia|].
  exists st'. split; [done|].
  pose proof (reachable_unflagged st Hst) as Hflags%countCells_zero.
  pose proof (Forall_getCell _ _ _ _ _ Hflags Hcell) as Hcf. simpl in Hcf.
  apply outcome_InProgress in Hplay as [Hover Hwon].
  revert Hrun. generalize (11 + k)%nat. intros fuel. unfold openCell.
  rewrite Hover, Hwon. cbn [orb].
  rewrite (proj2 (cellProp_Returns isOpen _ row col false)) by eauto. cbn [bind].
  rewrite (proj2 (cellProp_Returns isFlagged _ row col false)) by eauto. cbn [bind].
  intros (b' & Hb' & Hrun)%bind_Returns.
  destruct (openCellRecursive_progress _ _ _ _ _ _ Hin Hcell Hclosed Hsafe Hb')
    as [Hget Hcount].
  rewrite (proj2 (cellProp_Returns isMine b' row col false)) in Hrun by eauto.
  cbn [bind] in Hrun.
  destruct (checkWin b'); simplify_eq/=; unfold outcome; simpl; rewrite ?Hover, ?Hwon; done.
Qed.

Lemma reveal_opens_target_witness :
  reachable afterCorner ∧ outcome afterCorner = InProgress ∧
  inBounds 8 3 = true ∧
  getCell (board afterCorner) 8 3 = Some (mkCell false false false 3) ∧
  ∃ st', openCell (11 + 0) afterCorner 8 3 = Returns st' ∧
         getCell (board st') 8 3 = Some (setOpen (mkCell false false false 3)) ∧
         outcome st' ≠ Loss ∧
         (countCells isClosed (board st') < countCells isClosed (board afterCorner))%nat.
Proof.
  split; [apply reachable_afterCorner|]. split; [vm_compute; reflexivity|].
  split; [reflexivity|]. split; [vm_compute; reflexivity|].
  apply (reveal_opens_target afterCorner 8 3 (mkCell false false false 3) 0);
    [apply reachable_afterCorner|vm_compute; reflexivity|reflexivity
    |vm_compute; reflexivity|reflexivity|reflexivity].
Defined.

(** ** The cells around a cell *)

Lemma length_neighbours (row col : Z) :
  inBounds row col = true →
  Z.of_nat (length (neighbours row col)) = span row * span col - 1.
Proof.
  intros Hin. unfold inBounds in Hin. repeat (apply andb_prop in Hin as [Hin ?]).
  repeat match goal with H : bool_decide _ = true |- _ => apply bool_decide_eq_true in H end.
  assert (row ∈ seqZ 0 10) as Hr by (apply elem_of_seqZ; unfold BOARD_SIZE in *; lia).
  assert (col ∈ seqZ 0 10) as Hc by (apply elem_of_seqZ; unfold BOARD_SIZE in *; lia).
  assert (Forall (λ r, Forall (λ c, Z.of_nat (length (neighbours r c)) = span r * span c - 1)
                         (seqZ 0 10)) (seqZ 0 10)) as Hall.
  { by apply (bool_decide_unpack _); vm_compute. }
  rewrite Forall_forall in Hall. specialize (Hall row Hr).
  rewrite Forall_forall in Hall. exact (Hall col Hc).
Qed.

(** X20: on a 10 by 10 board [getAdjacentCells] never throws and returns
    cells only, those at the neighbours of the coordinate that lie in the
    grid; for a cell of the grid there are 3 of them at a corner, 5 on an
    edge and 8 elsewhere. *)
Theorem getAdjacentCells_in_square (b : Board) (row col : Z) :
  square b →
  ∃ cells, getAdjacentCells b row col = Returns (Some <$> cells) ∧
           Some <$> cells = map (λ p, getCell b p.1 p.2) (neighbours row col) ∧
           (inBounds row col = true →
            Z.of_nat (length cells) = span row * span col - 1).
Proof.
  intros Hb. destruct (getAdjacentCells_square b row col Hb) as [cells Hcells].
  exists cells. split; [done|].
  pose proof (getAdjacentCells_Returns _ _ _ _ Hcells) as Heq. split; [done|].
  intros Hin. rewrite <- (length_neighbours row col Hin).
  by rewrite <- (length_fmap Some cells), Heq, length_map.
Qed.

Lemma getAdjacentCells_in_square_witness :
  square lastRowBoard ∧
  ∃ cells, getAdjacentCells lastRowBoard 0 9 = Returns (Some <$> cells) ∧
           Some <$> cells = map (λ p, getCell lastRowBoard p.1 p.2) (neighbours 0 9) ∧
           (inBounds 0 9 = true → Z.of_nat (length cells) = span 0 * span 9 - 1).
Proof.
  assert (square lastRowBoard) as Hsq.
  { split; [reflexivity|]. by apply (bool_decide_unpack _); vm_compute. }
  split; [exact Hsq|]. apply (getAdjacentCells_in_square lastRowBoard 0 9 Hsq).
Defined.
